(** * kaval: experiment-suite expansion and job generation

    A shallow embedding of [expcore.py] and [runners.py], and the
    verification of the properties the specification states about them.

    Python values are modelled by the inductive type [value]; a [dict] keeps
    its items in insertion order, as Python's does, so it is an association
    list with distinct keys.  Integers are unbounded ([Z]); the one place the
    program computes in binary64 ([required_nodes]) is modelled with the
    IEEE 754 operations of [SpecFloat].  Python strings are sequences of
    code points below 256. *)

From Stdlib Require Import ZArith List String Ascii Bool Lia DecimalString.
From Stdlib Require Import DecimalPos DecimalZ.
From Stdlib Require Import Floats.SpecFloat.
From stdpp Require Import gmap strings.
Import ListNotations.

#[local] Set Warnings "-register-all".
Local Open Scope string_scope.
Local Open Scope list_scope.
Local Open Scope Z_scope.

(* ================================================================= *)
(** ** Python values *)

Inductive value : Type :=
| VNone
| VBool (b : bool)
| VInt (z : Z)
| VStr (s : string)
| VList (l : list value).

(** A [dict] with string keys, in insertion order. *)
Definition dict : Type := list (string * value).

(** [isinstance(value, bool)] *)
Definition isinstance_bool (v : value) : bool :=
  match v with VBool _ => true | _ => false end.

(** [type(value) == list] *)
Definition type_is_list (v : value) : bool :=
  match v with VList _ => true | _ => false end.

(** Truth value testing, as [if value:] does it. *)
Definition truthy (v : value) : bool :=
  match v with
  | VNone => false
  | VBool b => b
  | VInt z => negb (z =? 0)
  | VStr s => negb (String.length s =? 0)%nat
  | VList l => negb (List.length l =? 0)%nat
  end.

(** [str(z)] for an [int]. *)
Definition str_int (z : Z) : string := NilZero.string_of_int (Z.to_int z).

Definition hex_digit (n : N) : ascii :=
  match n with
  | 0 => "0" | 1 => "1" | 2 => "2" | 3 => "3" | 4 => "4" | 5 => "5"
  | 6 => "6" | 7 => "7" | 8 => "8" | 9 => "9" | 10 => "a" | 11 => "b"
  | 12 => "c" | 13 => "d" | 14 => "e" | _ => "f"
  end%N%char.

Fixpoint string_count (c : ascii) (s : string) : nat :=
  match s with
  | EmptyString => O
  | String a s' => ((if Ascii.eqb a c then 1 else 0) + string_count c s')%nat
  end.

Definition dquote : ascii := "034"%char.

(** The quote [repr] puts around a string: a double quote only when the
    string has single quotes and no double quote. *)
Definition repr_quote (s : string) : ascii :=
  if (negb (string_count "'" s =? 0)%nat) && (string_count dquote s =? 0)%nat
  then dquote else "'"%char.

(** Code points below 256 that [repr] writes as they are. *)
Definition isprintable (n : N) : bool :=
  ((32 <=? n) && (n <? 127) || (161 <=? n) && negb (n =? 173))%N.

Definition repr_char (q : ascii) (c : ascii) : string :=
  let n := N_of_ascii c in
  if Ascii.eqb c q || Ascii.eqb c "\"%char then String "\" (String c "")
  else if (n =? 9)%N then "\t"
  else if (n =? 10)%N then "\n"
  else if (n =? 13)%N then "\r"
  else if isprintable n then String c ""
  else String "\" (String "x" (String (hex_digit (n / 16)) (String (hex_digit (n mod 16)) ""))).

Fixpoint repr_chars (q : ascii) (s : string) : string :=
  match s with
  | EmptyString => ""
  | String c s' => repr_char q c +:+ repr_chars q s'
  end.

(** [repr(s)] for a [str]. *)
Definition repr_str (s : string) : string :=
  let q := repr_quote s in
  String q (repr_chars q s +:+ String q "").

(** [repr(value)] *)
Fixpoint py_repr (v : value) : string :=
  match v with
  | VNone => "None"
  | VBool true => "True"
  | VBool false => "False"
  | VInt z => str_int z
  | VStr s => repr_str s
  | VList l => "[" +:+ String.concat ", " (map py_repr l) +:+ "]"
  end.

(** [str(value)], which is also what an f-string writes for [{value}]. *)
Definition py_str (v : value) : string :=
  match v with
  | VStr s => s
  | _ => py_repr v
  end.


(* ================================================================= *)
(** ** Dictionaries *)

(** [key in d] *)
Definition dict_mem (key : string) (d : dict) : bool :=
  existsb (fun kv => String.eqb (fst kv) key) d.

(** [d.get(key)]: [None] stands for an absent key. *)
Fixpoint dict_get (key : string) (d : dict) : option value :=
  match d with
  | [] => None
  | (k, v) :: d' => if String.eqb k key then Some v else dict_get key d'
  end.

(** [d[key] = v]: an existing key keeps its place, a new one goes last. *)
Fixpoint dict_set (key : string) (v : value) (d : dict) : dict :=
  match d with
  | [] => [(key, v)]
  | (k, w) :: d' =>
      if String.eqb k key then (k, v) :: d' else (k, w) :: dict_set key v d'
  end.

(** [d.pop(key, None)], for its effect on [d]. *)
Fixpoint dict_pop (key : string) (d : dict) : dict :=
  match d with
  | [] => []
  | (k, w) :: d' => if String.eqb k key then d' else (k, w) :: dict_pop key d'
  end.

(** The keys of a Python dict are distinct. *)
Definition dict_wf (d : dict) : Prop := NoDup (map fst d).

(* ================================================================= *)
(** ** expcore.explode *)

(** The recursion of [explode] is not structural: the recursive call is on
    a copy of the configuration in which one list was replaced by one of its
    elements.  [explode_fuel] bounds the recursion depth; [weight] counts
    the lists of a configuration, nested ones included, and bounds the depth
    [explode] reaches. *)

Fixpoint weight (v : value) : nat :=
  match v with
  | VList l => S (list_sum (map weight l))
  | _ => O
  end.

Definition dict_weight (d : dict) : nat :=
  list_sum (map (fun kv => weight (snd kv)) d).

Section Explode.
(** The recursive call. *)
Variable explode_rec : dict -> option (list dict).
Variable config : dict.

(** [for arg in value: exploded = config.copy(); exploded[flag] = arg;
    configs = configs + explode(exploded)] *)
Fixpoint explode_args (flag : string) (args : list value) (configs : list dict)
  : option (list dict) :=
  match args with
  | [] => Some configs
  | arg :: args' =>
      let exploded := dict_set flag arg config in
      match explode_rec exploded with
      | None => None
      | Some exp => explode_args flag args' (configs ++ exp)
      end
  end.

(** [for flag, value in config.items(): if type(value) == list: ...; break] *)
Fixpoint explode_items (items : dict) (configs : list dict)
  : option (list dict) :=
  match items with
  | [] => Some configs
  | (flag, value) :: items' =>
      match value with
      | VList args => explode_args flag args configs
      | _ => explode_items items' configs
      end
  end.
End Explode.

Fixpoint explode_fuel (fuel : nat) (config : dict) : option (list dict) :=
  match fuel with
  | O => None
  | S fuel' =>
      match explode_items (explode_fuel fuel') config config [] with
      | None => None
      | Some [] => Some [config]
      | Some configs => Some configs
      end
  end.

(** [explode(config)].  [explode_total] shows that the fuel given here is
    always enough. *)
Definition explode (config : dict) : list dict :=
  match explode_fuel (S (dict_weight config)) config with
  | Some configs => configs
  | None => []
  end.


(** *** What the specification says about [explode] *)

(** The first list-valued item, the one [explode] works on. *)
Fixpoint first_list (items : dict) : option (string * list value) :=
  match items with
  | [] => None
  | (flag, VList args) :: _ => Some (flag, args)
  | _ :: items' => first_list items'
  end.

(** The sizes s1..sk of the list-valued fields. *)
Definition list_sizes (config : dict) : list nat :=
  flat_map (fun kv => match snd kv with
                      | VList l => [List.length l]
                      | _ => []
                      end) config.

Definition product (sizes : list nat) : nat := fold_right Nat.mul 1%nat sizes.

(** A list-valued field that offers at least one alternative, none of which
    is a list again. *)
Definition flat_value (v : value) : bool :=
  match v with
  | VList l => negb (List.length l =? 0)%nat && forallb (fun a => negb (type_is_list a)) l
  | _ => true
  end.

Definition flat_config (config : dict) : bool :=
  forallb (fun kv => flat_value (snd kv)) config.

(** [d] is [config] with every list-valued field replaced by one of that
    list's elements. *)
Definition picks_value (v v' : value) : Prop :=
  match v with
  | VList l => In v' l
  | _ => v' = v
  end.

Definition picks (config d : dict) : Prop :=
  Forall2 (fun kv kv' => fst kv' = fst kv /\ picks_value (snd kv) (snd kv')) config d.

(** No list-valued field offers the same alternative twice. *)
Definition distinct_choices (config : dict) : Prop :=
  Forall (fun kv => match snd kv with VList l => NoDup l | _ => True end) config.

(** The Cartesian product over the list-valued fields, the first such field
    varying slowest. *)
Fixpoint cartesian (config : dict) : list dict :=
  match config with
  | [] => [[]]
  | (flag, VList l) :: config' =>
      flat_map (fun arg => map (cons (flag, arg)) (cartesian config')) l
  | kv :: config' => map (cons kv) (cartesian config')
  end.

(* ================================================================= *)
(** ** Outcomes and effects *)

Inductive exn_kind : Type :=
| KeyError | TypeError | ValueError | ZeroDivisionError | OverflowError.

(** How a call ends.  An exception carries its message where the program
    gives one, and a [KeyError] its key; [sys.exit] ends the process with a
    status. *)
Inductive result (A : Type) : Type :=
| Returns (a : A)
| Raises (kind : exn_kind) (msg : option string)
| Exits (status : Z).
Arguments Returns {A} a.
Arguments Raises {A} kind msg.
Arguments Exits {A} status.

Definition result_bind {A B} (r : result A) (f : A -> result B) : result B :=
  match r with
  | Returns a => f a
  | Raises kind msg => Raises kind msg
  | Exits status => Exits status
  end.

Declare Scope result_scope.
Delimit Scope result_scope with result.
Notation "x <- c ;; k" := (result_bind c (fun x => k))
  (at level 100, c at next level, right associativity) : result_scope.

(** [try: body except TypeError: handler] *)
Definition except_TypeError {A} (body : result A) (handler : result A) : result A :=
  match body with
  | Raises TypeError _ => handler
  | r => r
  end.

(** Dictionaries are objects: a configuration handed to a runner is a
    reference into the heap, and [copy] makes a new object. *)
Definition loc : Type := positive.

Inductive event : Type :=
| LogError (msg : string).

Record world : Type := World {
  heap : gmap loc dict;
  log : list event;
}.

Definition M (A : Type) : Type := world -> result A * world.

Definition ret {A} (a : A) : M A := fun w => (Returns a, w).

Definition bind {A B} (c : M A) (f : A -> M B) : M B := fun w =>
  match c w with
  | (Returns a, w') => f a w'
  | (Raises kind msg, w') => (Raises kind msg, w')
  | (Exits status, w') => (Exits status, w')
  end.

Declare Scope M_scope.
Delimit Scope M_scope with M.
Bind Scope M_scope with M.
Notation "x <- c ;; k" := (bind c (fun x => k))
  (at level 100, c at next level, right associativity) : M_scope.
Notation "c ;; k" := (bind c (fun _ => k))
  (at level 100, right associativity) : M_scope.

Definition lift {A} (r : result A) : M A := fun w => (r, w).

(** [logging.error(msg)] *)
Definition logging_error (msg : string) : M unit :=
  fun w => (Returns tt, World (heap w) (log w ++ [LogError msg])).

(** [sys.exit(status)] *)
Definition sys_exit {A} (status : Z) : M A := fun w => (Exits status, w).

(** Reading the dictionary behind a reference.  A reference the program
    holds always has its object; the other case is there for totality. *)
Definition deref (l : loc) : M dict :=
  fun w => match heap w !! l with
           | Some d => (Returns d, w)
           | None => (Raises TypeError None, w)
           end.

(** [d.copy()]: a new object with the same items. *)
Definition alloc (d : dict) : M loc :=
  fun w => let l' := fresh (dom (heap w)) in
           (Returns l', World (<[l' := d]> (heap w)) (log w)).

Definition store (l : loc) (d : dict) : M unit :=
  fun w => (Returns tt, World (<[l := d]> (heap w)) (log w)).

Definition dict_copy (l : loc) : M loc :=
  (d <- deref l ;; alloc d)%M.

(** [d[key] = v] on the object behind [l]. *)
Definition dict_setitem (l : loc) (key : string) (v : value) : M unit :=
  (d <- deref l ;; store l (dict_set key v d))%M.

(* ================================================================= *)
(** ** Built-in conversions *)

(** The characters [int] strips, on code points below 256.  [int] first
    turns every space above the ASCII range (here U+0085 and U+00A0) into a
    blank and leaves ASCII characters as they are, and then skips what C's
    [isspace] accepts: tab to carriage return, and the blank.  The
    separators U+001C to U+001F, which [str.isspace] accepts, are not
    skipped: [int] of a string that holds one is a [ValueError]. *)
Definition isspace (c : ascii) : bool :=
  let n := N_of_ascii c in
  ((9 <=? n) && (n <=? 13) || (n =? 32) || (n =? 133) || (n =? 160))%N.

Definition digit_value (c : ascii) : option Z :=
  let n := N_of_ascii c in
  if ((48 <=? n) && (n <=? 57))%N then Some (Z.of_N n - 48) else None.

Fixpoint lstrip (s : string) : string :=
  match s with
  | String c s' => if isspace c then lstrip s' else s
  | EmptyString => s
  end.

Fixpoint all_space (s : string) : bool :=
  match s with
  | String c s' => isspace c && all_space s'
  | EmptyString => true
  end.

(** Decimal digits, single underscores between them, then only spaces.
    [after_digit] tells whether the character before was a digit. *)
Fixpoint parse_digits (s : string) (acc : Z) (after_digit : bool) : option Z :=
  match s with
  | EmptyString => if after_digit then Some acc else None
  | String c s' =>
      match digit_value c with
      | Some d => parse_digits s' (10 * acc + d) true
      | None =>
          if after_digit && Ascii.eqb c "_" then parse_digits s' acc false
          else if after_digit && all_space s then Some acc
          else None
      end
  end.

(** [int(s)] for a [str], base 10; [None] stands for [ValueError].  The
    interpreter's limit on the number of digits is not modelled. *)
Definition parse_int (s : string) : option Z :=
  match lstrip s with
  | String "-" s' => option_map Z.opp (parse_digits s' 0 false)
  | String "+" s' => parse_digits s' 0 false
  | s' => parse_digits s' 0 false
  end.

(** [int(value)] *)
Definition py_int (v : value) : result Z :=
  match v with
  | VNone => Raises TypeError None
  | VBool b => Returns (if b then 1 else 0)
  | VInt z => Returns z
  | VStr s => match parse_int s with
              | Some z => Returns z
              | None => Raises ValueError None
              end
  | VList _ => Raises TypeError None
  end.

(** [1 << k] *)
Definition one_lshift (k : Z) : result Z :=
  if k <? 0 then Raises ValueError None else Returns (Z.shiftl 1 k).

Fixpoint string_repeat (s : string) (k : nat) : string :=
  match k with
  | O => ""
  | S k' => s +:+ string_repeat s k'
  end.

Fixpoint list_repeat {A} (l : list A) (k : nat) : list A :=
  match k with
  | O => []
  | S k' => l ++ list_repeat l k'
  end.

(** [value * p] for an integer [p]. *)
Definition py_mul (v : value) (p : Z) : result value :=
  match v with
  | VNone => Raises TypeError None
  | VBool b => Returns (VInt ((if b then 1 else 0) * p))
  | VInt z => Returns (VInt (z * p))
  | VStr s => Returns (VStr (string_repeat s (Z.to_nat p)))
  | VList l => Returns (VList (list_repeat l (Z.to_nat p)))
  end.

(** [sep.join(parts)] *)
Definition join (sep : string) (parts : list string) : string :=
  String.concat sep parts.

(** Library functions the program calls and this development leaves
    open. *)
Class Libraries : Type := {
  (** [slugify.slugify(name)] *)
  slugify : string -> string;
  (** [int(math.log2(value))] *)
  int_log2 : value -> result Z;
}.

(* ================================================================= *)
(** ** expcore.FileInputGraph *)

Module FileInputGraph.

Record t : Type := Build {
  _name : string;
  path : string;                 (* [str(self.path)] *)
  format : string;
  partitions : gmap Z string;    (* rank count -> partition file *)
  partitioned : bool;
}.

Definition name (self : t) : string :=
  if partitioned self then _name self +:+ "_partitioned" else _name self.

(** [if not partition_file] holds for a missing entry, which [get] turns
    into [None], and for an entry that is the empty string. *)
Definition args (self : t) (mpi_ranks threads_per_rank : Z) (escape : bool)
  : M (list string) :=
  (let file_args := ["--graphtype"; "BRAIN"; "--infile_dir"; path self] in
   if partitioned self && (1 <? mpi_ranks) then
     let partition_file := partitions self !! mpi_ranks in
     match partition_file with
     | Some (String c f) =>
         ret (file_args ++ ["--partitioning"; String c f])
     | Some EmptyString | None =>
         logging_error ("Could not load partitioning for p=" +:+ str_int mpi_ranks
                        +:+ " for input " +:+ name self) ;;
         sys_exit 1
     end
   else ret file_args)%M.

Definition add_partitions (self : t) (new : gmap Z string) : t :=
  Build (_name self) (path self) (format self)
        (new ∪ partitions self) (partitioned self).

End FileInputGraph.

(* ================================================================= *)
(** ** expcore.KaGenGraph *)

Module KaGenGraph.

Record t : Type := Build {
  n : value;
  m : value;
  scale_weak : value;
  params : dict;
}.

(** [try: kwargs.get(direct, 1 << int(kwargs[exponent]))
    except TypeError: None].  The default is evaluated before [get] is
    called, so a missing exponent is a [KeyError] whether or not the
    direct form is given. *)
Definition size_argument (kwargs : dict) (direct exponent : string) : result value :=
  except_TypeError
    (match dict_get exponent kwargs with
     | None => Raises KeyError (Some exponent)
     | Some e =>
         (k <- py_int e ;;
          default <- one_lshift k ;;
          Returns (match dict_get direct kwargs with
                   | Some v => v
                   | None => VInt default
                   end))%result
     end)
    (Returns VNone).

Definition __init__ (kwargs : dict) : result t :=
  (if negb (dict_mem "type" kwargs)
   then Raises ValueError (Some "KaGen graph requires a type")
   else
     n <- size_argument kwargs "n" "N" ;;
     m <- size_argument kwargs "m" "M" ;;
     let kwargs := dict_pop "n" kwargs in
     let kwargs := dict_pop "N" kwargs in
     let kwargs := dict_pop "m" kwargs in
     let kwargs := dict_pop "M" kwargs in
     let scale_weak := match dict_get "scale_weak" kwargs with
                       | Some v => v
                       | None => VBool false
                       end in
     let kwargs := dict_pop "scale_weak" kwargs in
     Returns (Build n m scale_weak kwargs))%result.

Definition get_n (self : t) (p : Z) : result value :=
  if truthy (scale_weak self) then py_mul (n self) p else Returns (n self).

Definition get_m (self : t) (p : Z) : result value :=
  if truthy (scale_weak self) then py_mul (m self) p else Returns (m self).

Definition stringify_params (self : t) : list string :=
  fold_left (fun param_strings kv =>
               let '(key, value) := kv in
               if isinstance_bool value then param_strings ++ [key]
               else param_strings ++ [key +:+ "=" +:+ py_str value])
            (params self) [].

Definition args (self : t) (mpi_ranks threads_per_rank : Z) (escape : bool)
  : result (list string) :=
  (let p := mpi_ranks * threads_per_rank in
   let params := stringify_params self in
   params <- (if truthy (n self)
              then (size <- get_n self p ;;
                    Returns (params ++ ["n=" +:+ py_str size]))
              else Returns params) ;;
   params <- (if truthy (m self)
              then (size <- get_m self p ;;
                    Returns (params ++ ["m=" +:+ py_str size]))
              else Returns params) ;;
   let kagen_option_string := join ";" params in
   let kagen_option_string :=
     if escape
     then String dquote (kagen_option_string +:+ String dquote "")
     else kagen_option_string in
   Returns ["--kagen_option_string"; kagen_option_string])%result.

Section Name.
Context `{Libraries}.

Definition name (self : t) : result string :=
  (let params := [] in
   params <- (if truthy (n self)
              then (l <- int_log2 (n self) ;;
                    Returns (params ++ ["n=" +:+ str_int l]))
              else Returns params) ;;
   params <- (if truthy (m self)
              then (l <- int_log2 (m self) ;;
                    Returns (params ++ ["m=" +:+ str_int l]))
              else Returns params) ;;
   let params := params ++ stringify_params self in
   let params := if truthy (scale_weak self) then params ++ ["weak"] else params in
   let name := "KaGen_" +:+ join "_" params in
   Returns (slugify name))%result.
End Name.

End KaGenGraph.

(* ================================================================= *)
(** ** expcore.DummyInstance *)

Module DummyInstance.

Record t : Type := Build {
  name_ : value;
  params : dict;
}.

Definition __init__ (kwargs : dict) : result t :=
  match dict_get "name" kwargs with
  | None => Raises KeyError (Some "name")
  | Some name => Returns (Build name (dict_pop "name" kwargs))
  end.

Definition args (self : t) (mpi_rank treeads_per_rank : Z) (escape : bool)
  : list string :=
  fold_left (fun params kv =>
               let '(key, value) := kv in
               let params :=
                 if negb (String.eqb key "nokey")
                 then params ++ ["--" +:+ key] else params in
               if negb (isinstance_bool value)
               then params ++ [String dquote (py_str value +:+ String dquote "")]
               else params)
            (params self) [].

End DummyInstance.

(* ================================================================= *)
(** ** expcore.params_to_flags and expcore.command *)

Definition params_to_flags (params : dict) : list string :=
  fold_left (fun flags kv =>
               let '(flag, value) := kv in
               let dash := "-" in
               let dash := if (1 <? String.length flag)%nat
                           then dash +:+ "-" else dash in
               match value with
               | VBool b => if b then flags ++ [dash +:+ flag] else flags
               | _ => (flags ++ [dash +:+ flag]) ++ [py_str value]
               end)
            params [].

(** What a job runs on: one of the [InputGraph] classes, or anything else,
    which is passed on as [str(input)]. *)
Inductive input : Type :=
| InputFile (g : FileInputGraph.t)
| InputKaGen (g : KaGenGraph.t)
| InputDummy (g : DummyInstance.t)
| InputOther (v : value).

Definition input_args (i : input) (mpi_ranks threads_per_rank : Z) (escape : bool)
  : M (list string) :=
  match i with
  | InputFile g => FileInputGraph.args g mpi_ranks threads_per_rank escape
  | InputKaGen g => lift (KaGenGraph.args g mpi_ranks threads_per_rank escape)
  | InputDummy g => ret (DummyInstance.args g mpi_ranks threads_per_rank escape)
  | InputOther v => ret [py_str v]
  end.

(** [if input:] *)
Definition input_truthy (i : input) : bool :=
  match i with
  | InputOther v => truthy v
  | _ => true
  end.

(** The file system and the environment, as far as [command] and the
    runners look at them. *)
Class Platform : Type := {
  (** [str(Path(directory) / name)] *)
  path_join : string -> string -> string;
  (** [BUILD_DIR], or the build directory next to the scripts *)
  build_dir : string;
}.

Section Command.
Context `{Platform}.

Definition command (binary_name : option string) (binary_path : string)
    (i : input) (mpi_ranks threads_per_rank : Z) (escape : bool)
    (kwargs : dict) : M (list string) :=
  match binary_name with
  | None => lift (Raises TypeError None)
  | Some binary_name =>
      (let app := path_join (path_join build_dir binary_path) binary_name in
       let command := [app] in
       command <- (if input_truthy i
                   then (a <- input_args i mpi_ranks threads_per_rank escape ;;
                         ret (command ++ a))
                   else ret command) ;;
       let flags := [] in
       let flags := flags ++ params_to_flags kwargs in
       ret (command ++ flags))%M
  end.
End Command.

(* ================================================================= *)
(** ** Floating-point arithmetic of the interpreter *)

(** Python's [float] is IEEE 754 binary64. *)
Definition prec : Z := 53.
Definition emax : Z := 1024.

(** [float(z)] for an [int]: the nearest binary64, ties to even; an [int]
    beyond the range of binary64 is an [OverflowError]. *)
Definition float_of_int (z : Z) : result spec_float :=
  match binary_normalize prec emax z 0 false with
  | S754_infinity _ => Raises OverflowError None
  | x => Returns x
  end.

(** [x / y] on floats. *)
Definition float_truediv (x y : spec_float) : result spec_float :=
  match y with
  | S754_zero _ => Raises ZeroDivisionError None
  | _ => Returns (SFdiv prec emax x y)
  end.

(** [math.ceil(x)] *)
Definition math_ceil (x : spec_float) : result Z :=
  match x with
  | S754_nan => Raises ValueError None
  | S754_infinity _ => Raises OverflowError None
  | S754_zero _ => Returns 0
  | S754_finite s mx e =>
      let mag := Z.pos mx in
      Returns (match e with
               | Z.neg d =>
                   if s then - (mag / 2 ^ Z.pos d)
                   else - ((- mag) / 2 ^ Z.pos d)
               | _ => (if s then - mag else mag) * 2 ^ e
               end)
  end.

(* ================================================================= *)
(** ** runners.py *)

(** The fields of [ExperimentSuite] that job generation reads. *)
Module ExperimentSuite.
Record t : Type := Build {
  name : string;
  executable : option string;
  cores : list Z;
  threads_per_rank : list Z;
  inputs : list input;
  configs : list loc;
  tasks_per_node : option Z;
  seeds : list value;
}.
End ExperimentSuite.

Module BaseRunner.

Record t : Type := Build {
  output_directory : string;
  omit_json_output_path : bool;
  omit_seed : bool;
}.

(** The parameter names of [expcore.command] that the call in
    [make_cmd_for_config] fills itself; [**config] must not give them
    again. *)
Definition command_parameters : list string :=
  ["binary_name"; "binary_path"; "input"; "mpi_ranks"; "threads_per_rank";
   "escape"].

Section MakeCmd.
Context `{Platform}.

Definition make_cmd_for_config (self : t) (suite : ExperimentSuite.t)
    (i : input) (config_job_name : string) (config_index : Z)
    (mpi_ranks threads_per_rank : Z) (seed : value) (config : loc)
  : M (list string) :=
  (let json_output_prefix_path :=
     path_join (output_directory self) (config_job_name +:+ "_timer.json") in
   config <- dict_copy config ;;
   (if negb (omit_json_output_path self)
    then dict_setitem config "json_output_path" (VStr json_output_prefix_path)
    else ret tt) ;;
   (if negb (omit_seed self)
    then dict_setitem config "seed" seed
    else ret tt) ;;
   kwargs <- deref config ;;
   if existsb (fun key => dict_mem key kwargs) command_parameters
   then lift (Raises TypeError None)
   else command (ExperimentSuite.executable suite) "." i
                mpi_ranks threads_per_rank true kwargs)%M.
End MakeCmd.

End BaseRunner.

Module SBatchRunner.

(** [int(max(int(m.ceil(float(cores) / tasks_per_node)), 1))] *)
Definition required_nodes (cores tasks_per_node : Z) : result Z :=
  (x <- float_of_int cores ;;
   y <- float_of_int tasks_per_node ;;
   q <- float_truediv x y ;;
   c <- math_ceil q ;;
   Returns (Z.max c 1))%result.

End SBatchRunner.

Module SuperMUCRunner.

Definition get_queue (cores tasks_per_node : Z) (use_test_partition : bool)
  : result string :=
  (nodes <- SBatchRunner.required_nodes cores tasks_per_node ;;
   if nodes <=? 16 then
     Returns (if use_test_partition then "test" else "micro")
   else if nodes <=? 768 then Returns "general"
   else Returns "large")%result.

Definition required_islands (nodes : Z) : Z :=
  if 768 <? nodes then 2 else 1.

End SuperMUCRunner.

(** What [HorekaRunner.get_queue] hands back: a queue name, or an exception
    object. *)
Inductive queue_value : Type :=
| QName (s : string)
| QException (kind : exn_kind) (msg : string).

Module HorekaRunner.

Definition get_queue (cores tasks_per_node : Z) (use_test_partition : bool)
  : result queue_value :=
  (nodes <- SBatchRunner.required_nodes cores tasks_per_node ;;
   if nodes <=? 12 then
     Returns (QName (if use_test_partition then "dev_cpuonly" else "cpuonly"))
   else if nodes <=? 192 then Returns (QName "cpuonly")
   else Returns (QException ValueError
                   "Cannot use more than 192 compute nodes on HoreKa!"))%result.

Definition required_islands (nodes : Z) : Z := 1.

End HorekaRunner.

Module GenericDistributedMemoryRunner.

Definition get_queue (cores tasks_per_node : Z) (use_test_partition : bool)
  : result string :=
  Returns "generic_partition".

Definition required_islands (nodes : Z) : Z := 1.

End GenericDistributedMemoryRunner.

(** A platform for the examples: a relative name is put under the directory
    after a slash, the name [.] is the directory itself; the build
    directory is the one next to the scripts. *)
Definition example_platform : Platform :=
  {| path_join := fun directory name =>
       if String.eqb name "." then directory else directory +:+ "/" +:+ name;
     build_dir := "../build" |}.

(** *** Rounding, for the proofs about [required_nodes] *)

(** [a / d] rounded to the nearest integer, ties to even. *)
Definition round_half_even (a d : Z) : Z :=
  let t := a / d in
  let r := a mod d in
  if (d <? 2 * r) || ((2 * r =? d) && Z.odd t) then t + 1 else t.

(** The binary64 with mantissa [m], of 53 bits or one more than the largest
    of 53 bits, and exponent [e]. *)
Definition normal_float (m e : Z) : spec_float :=
  if m <? 2 ^ 53 then S754_finite false (Z.to_pos m) e
  else S754_finite false (Z.to_pos (2 ^ 52)) (e + 1).

(* ================================================================= *)
(** ** runners.format_duration *)

(** [divmod(a, b)] *)
Definition divmod (a b : Z) : Z * Z := (a / b, a mod b).

Fixpoint zfill (width : nat) (s : string) : string :=
  match width with
  | O => s
  | S width' =>
      if (String.length s <? width)%nat then zfill width' ("0" +:+ s) else s
  end.

(** [f"{z:02}"]: at least two characters, zeros after the sign. *)
Definition format_02 (z : Z) : string :=
  if z <? 0 then "-" +:+ zfill 1 (str_int (- z)) else zfill 2 (str_int z).

Definition format_duration (seconds : Z) : string :=
  let '(days, remainder) := divmod seconds (3600 * 24) in
  let '(hours, remainder) := divmod remainder 3600 in
  let '(minutes, seconds) := divmod remainder 60 in
  let formatted :=
    str_int days +:+ "-" +:+ format_02 hours +:+ ":" +:+ format_02 minutes
    +:+ ":" +:+ format_02 seconds in
  formatted.

(* ================================================================= *)
(** ** runners.get_runner *)

(** [needle in haystack], for two strings. *)
Fixpoint contains (needle haystack : string) : bool :=
  String.prefix needle haystack ||
  match haystack with
  | EmptyString => false
  | String _ haystack' => contains needle haystack'
  end.

Inductive runner_class : Type :=
| SharedMemoryRunner
| SuperMUCRunner
| HorekaRunner
| GenericDistributedMemoryRunner.

(** What [get_runner] comes to: a runner of some class, or [exit(message)]. *)
Inductive selection : Type :=
| Selected (c : runner_class)
| SystemExit (message : string).

(** The class of the runner that [get_runner] builds for [args.machine]. *)
Definition get_runner (machine : string) : selection :=
  if String.eqb machine "shared" then Selected SharedMemoryRunner
  else if contains machine "supermuc" then Selected SuperMUCRunner
  else if contains machine "horeka" then Selected HorekaRunner
  else if String.eqb machine "generic-job-file"
       then Selected GenericDistributedMemoryRunner
  else SystemExit ("Unknown machine type: " +:+ machine).

(* ================================================================= *)
(** ** Further notions for the properties below *)

(** No list of the value is empty, at any depth. *)
Fixpoint no_empty_list (v : value) : bool :=
  match v with
  | VList l => negb (List.length l =? 0)%nat && forallb no_empty_list l
  | _ => true
  end.

(** [kwargs] without the keys in [keys]. *)
Definition without_keys (keys : list string) (kwargs : dict) : dict :=
  List.filter (fun kv => negb (existsb (String.eqb (fst kv)) keys)) kwargs.

(** A field that [params_to_flags] passes over. *)
Definition is_false (v : value) : bool :=
  match v with VBool false => true | _ => false end.

(** The scalars a value stands for: one for a scalar, and for a list those
    of its elements together. *)
Fixpoint leaves (v : value) : nat :=
  match v with
  | VList l => list_sum (map leaves l)
  | _ => 1%nat
  end.

Definition config_no_empty_list (config : dict) : bool :=
  forallb (fun kv => no_empty_list (snd kv)) config.

Definition config_leaves (config : dict) : nat :=
  product (map (fun kv => leaves (snd kv)) config).

(* ================================================================= *)
(** * Verification *)

(** Distinctness of the elements of an explicit list. *)
Ltac not_elem :=
  let H := fresh in
  intros H;
  repeat (apply elem_of_cons in H as [H|H]; [discriminate H|]);
  apply elem_of_nil in H; exact H.

Ltac distinct := repeat (apply NoDup_cons_2; [not_elem|]); apply NoDup_nil_2.

(** ** Dictionaries *)

Lemma dict_set_keys key v d :
  In key (map fst d) -> map fst (dict_set key v d) = map fst d.
Proof.
  induction d as [|[k w] d IH]; simpl; [tauto|].
  intros [Hk|Hk]; destruct (String.eqb k key) eqn:E; simpl; try reflexivity.
  - subst. rewrite String.eqb_refl in E. discriminate.
  - f_equal. auto.
Qed.

Lemma dict_set_app_fresh key v pre post :
  ~ In key (map fst pre) ->
  dict_set key v (pre ++ post) = pre ++ dict_set key v post.
Proof.
  induction pre as [|[k w] pre IH]; simpl; intros Hn; [reflexivity|].
  destruct (String.eqb k key) eqn:E.
  - apply String.eqb_eq in E. tauto.
  - f_equal. apply IH. tauto.
Qed.

Lemma dict_set_head key v w d : dict_set key v ((key, w) :: d) = (key, v) :: d.
Proof. simpl. now rewrite String.eqb_refl. Qed.

Lemma dict_set_weight key v v' d :
  NoDup (map fst d) -> In (key, v) d ->
  (dict_weight (dict_set key v' d) + weight v = dict_weight d + weight v')%nat.
Proof.
  unfold dict_weight.
  induction d as [|[k w] d IH]; simpl; [tauto|].
  intros Hnd Hin. inversion Hnd as [|? ? Hk Hd]; subst.
  destruct (String.eqb k key) eqn:E.
  - apply String.eqb_eq in E. subst k. destruct Hin as [Heq|Hin].
    + inversion Heq; subst. simpl. lia.
    + exfalso. apply Hk, list_elem_of_In.
      change key with (fst (key, v)). now apply in_map.
  - destruct Hin as [Heq|Hin].
    + inversion Heq; subst. rewrite String.eqb_refl in E. discriminate.
    + simpl. specialize (IH Hd Hin). lia.
Qed.

Lemma weight_elem arg args : In arg args -> (weight arg < weight (VList args))%nat.
Proof.
  simpl. induction args as [|a args IH]; simpl; [tauto|].
  intros [->|Hin]; [lia|]. specialize (IH Hin). lia.
Qed.

(** ** explode *)

Lemma first_list_In items flag args :
  first_list items = Some (flag, args) -> In (flag, VList args) items.
Proof.
  induction items as [|[k v] items IH]; simpl; [discriminate|].
  destruct v; try (intros H; right; now apply IH).
  intros H. inversion H; subst. now left.
Qed.

Lemma explode_items_first rec config items configs :
  explode_items rec config items configs =
  match first_list items with
  | None => Some configs
  | Some (flag, args) => explode_args rec config flag args configs
  end.
Proof.
  induction items as [|[k v] items IH]; simpl; [reflexivity|].
  destruct v; auto.
Qed.

Lemma explode_args_flat_map rec config flag g args configs :
  (forall arg, In arg args -> rec (dict_set flag arg config) = Some (g arg)) ->
  explode_args rec config flag args configs = Some (configs ++ flat_map g args).
Proof.
  revert configs. induction args as [|a args IH]; simpl; intros configs H.
  - now rewrite app_nil_r.
  - rewrite (H a) by now left. rewrite IH by auto. now rewrite <- app_assoc.
Qed.

Lemma explode_set_smaller config flag args arg :
  dict_wf config -> first_list config = Some (flag, args) -> In arg args ->
  dict_wf (dict_set flag arg config) /\
  (dict_weight (dict_set flag arg config) < dict_weight config)%nat.
Proof.
  intros Hwf Hf Hin. apply first_list_In in Hf. split.
  - unfold dict_wf. rewrite dict_set_keys; [exact Hwf|].
    change flag with (fst (flag, VList args)). now apply in_map.
  - pose proof (dict_set_weight flag (VList args) arg config Hwf Hf).
    pose proof (weight_elem arg args Hin). lia.
Qed.

(** Any fuel above the weight of the configuration gives the same,
    non-empty result. *)
Lemma explode_fuel_stable fuel1 : forall fuel2 config,
  dict_wf config ->
  (dict_weight config < fuel1)%nat -> (dict_weight config < fuel2)%nat ->
  exists configs, configs <> [] /\
    explode_fuel fuel1 config = Some configs /\
    explode_fuel fuel2 config = Some configs.
Proof.
  induction fuel1 as [|fuel1 IH]; intros fuel2 config Hwf H1 H2; [lia|].
  destruct fuel2 as [|fuel2]; [lia|]. simpl.
  rewrite !explode_items_first.
  destruct (first_list config) as [[flag args]|] eqn:Hf.
  - set (g := fun arg => match explode_fuel fuel1 (dict_set flag arg config) with
                         | Some r => r | None => [] end).
    assert (Hg : forall arg, In arg args ->
              g arg <> [] /\
              explode_fuel fuel1 (dict_set flag arg config) = Some (g arg) /\
              explode_fuel fuel2 (dict_set flag arg config) = Some (g arg)).
    { intros arg Hin.
      destruct (explode_set_smaller config flag args arg Hwf Hf Hin) as [Hwf' Hlt].
      destruct (IH fuel2 (dict_set flag arg config) Hwf') as (r & Hr & E1 & E2);
        try lia.
      unfold g. rewrite E1. auto. }
    rewrite (explode_args_flat_map _ config flag g) by (intros; now apply Hg).
    rewrite (explode_args_flat_map _ config flag g) by (intros; now apply Hg).
    simpl. destruct (flat_map g args) as [|c cs] eqn:Hfm.
    + exists [config]. repeat split; congruence.
    + exists (c :: cs). repeat split; congruence.
  - exists [config]. repeat split; congruence.
Qed.

Lemma explode_fuel_explode fuel config :
  dict_wf config -> (dict_weight config < fuel)%nat ->
  explode_fuel fuel config = Some (explode config).
Proof.
  intros Hwf Hlt.
  destruct (explode_fuel_stable fuel (S (dict_weight config)) config Hwf Hlt)
    as (r & _ & E1 & E2); [lia|].
  unfold explode. now rewrite E2.
Qed.

(** [explode] returns: the fuel it is given suffices, and the result is
    never empty. *)
Lemma explode_total config :
  dict_wf config ->
  exists configs, configs <> [] /\
    explode_fuel (S (dict_weight config)) config = Some configs /\
    explode config = configs.
Proof.
  intros Hwf.
  destruct (explode_fuel_stable (S (dict_weight config)) (S (dict_weight config))
              config Hwf) as (r & Hr & E1 & _); try lia.
  exists r. repeat split; auto. unfold explode. now rewrite E1.
Qed.

(** The equation the source text of [explode] reads as. *)
Lemma explode_unfold config :
  dict_wf config ->
  explode config =
  match first_list config with
  | None => [config]
  | Some (flag, args) =>
      match flat_map (fun arg => explode (dict_set flag arg config)) args with
      | [] => [config]
      | configs => configs
      end
  end.
Proof.
  intros Hwf. unfold explode at 1. simpl.
  rewrite explode_items_first.
  destruct (first_list config) as [[flag args]|] eqn:Hf; [|reflexivity].
  rewrite (explode_args_flat_map _ config flag
             (fun arg => explode (dict_set flag arg config))).
  - simpl. now destruct (flat_map _ args).
  - intros arg Hin.
    destruct (explode_set_smaller config flag args arg Hwf Hf Hin) as [Hwf' Hlt].
    apply explode_fuel_explode; auto.
Qed.

Lemma first_list_app pre rest :
  first_list pre = None -> first_list (pre ++ rest) = first_list rest.
Proof.
  induction pre as [|[k v] pre IH]; simpl; [reflexivity|].
  destruct v; auto; discriminate.
Qed.

Lemma first_list_snoc pre k v :
  first_list pre = None -> type_is_list v = false ->
  first_list (pre ++ [(k, v)]) = None.
Proof.
  intros Hp Hv. rewrite first_list_app by exact Hp. simpl.
  destruct v; try reflexivity; discriminate.
Qed.

Lemma cartesian_nonempty config : cartesian config <> [] \/ flat_config config = false.
Proof.
  induction config as [|[k v] config IH]; simpl; [left; discriminate|].
  destruct IH as [IH|IH]; [|right; now rewrite IH, andb_false_r].
  destruct v; try (left; destruct (cartesian config); [congruence|discriminate]).
  destruct l as [|a l]; [right; reflexivity|].
  left. simpl. destruct (cartesian config); [congruence|discriminate].
Qed.

Lemma map_flat_map {A B C} (f : B -> C) (g : A -> list B) l :
  map f (flat_map g l) = flat_map (fun a => map f (g a)) l.
Proof.
  induction l as [|a l IH]; simpl; [reflexivity|].
  now rewrite map_app, IH.
Qed.

Lemma flat_map_ext_in {A B} (f g : A -> list B) l :
  (forall a, In a l -> f a = g a) -> flat_map f l = flat_map g l.
Proof.
  induction l as [|a l IH]; simpl; intros H; [reflexivity|].
  rewrite (H a) by now left. f_equal. apply IH. auto.
Qed.

(** With a scalar prefix already chosen, [explode] enumerates the Cartesian
    product of what follows. *)
Lemma explode_prefix rest : forall pre,
  dict_wf (pre ++ rest) -> first_list pre = None -> flat_config rest = true ->
  explode (pre ++ rest) = map (app pre) (cartesian rest).
Proof.
  induction rest as [|[k v] rest IH]; intros pre Hwf Hpre Hflat.
  - rewrite explode_unfold by exact Hwf.
    rewrite first_list_app by exact Hpre. reflexivity.
  - simpl in Hflat. apply andb_true_iff in Hflat as [Hv Hflat].
    assert (Hsnoc : forall w, pre ++ (k, w) :: rest = (pre ++ [(k, w)]) ++ rest)
      by (intros; now rewrite <- app_assoc).
    assert (Hfresh : ~ In k (map fst pre)).
    { unfold dict_wf in Hwf. rewrite map_app in Hwf. simpl in Hwf.
      apply NoDup_app in Hwf as (_ & Hdisj & _).
      intros Hin. apply (Hdisj k); [now apply list_elem_of_In|]. left. }
    assert (Hstep : forall w, type_is_list w = false ->
              explode (pre ++ (k, w) :: rest) =
              map (app pre) (map (cons (k, w)) (cartesian rest))).
    { intros w Hw. rewrite Hsnoc, IH.
      - rewrite map_map. apply map_ext. intros d. now rewrite <- app_assoc.
      - rewrite <- Hsnoc. unfold dict_wf in *. rewrite map_app in *. exact Hwf.
      - now apply first_list_snoc.
      - exact Hflat. }
    destruct v as [|b|z|s|l]; try (apply Hstep; reflexivity).
    simpl in Hv. apply andb_true_iff in Hv as [Hne Hscal].
    rewrite explode_unfold by exact Hwf.
    rewrite first_list_app by exact Hpre. simpl.
    rewrite (flat_map_ext_in _
               (fun arg => map (app pre) (map (cons (k, arg)) (cartesian rest)))).
    + rewrite map_flat_map.
      destruct l as [|a l]; [discriminate|]. simpl.
      destruct (cartesian_nonempty rest) as [Hc|Hc]; [|congruence].
      destruct (cartesian rest) as [|c cs]; [congruence|]. reflexivity.
    + intros arg Hin. rewrite dict_set_app_fresh by exact Hfresh.
      rewrite dict_set_head. rewrite <- Hstep; [reflexivity|].
      rewrite forallb_forall in Hscal. specialize (Hscal arg Hin).
      now apply negb_true_iff in Hscal.
Qed.

Lemma explode_is_cartesian config :
  dict_wf config -> flat_config config = true ->
  explode config = cartesian config.
Proof.
  intros Hwf Hflat.
  pose proof (explode_prefix config [] Hwf eq_refl Hflat) as H.
  simpl in H. rewrite H. apply map_id.
Qed.

Lemma length_flat_map_const {A B} (f : A -> list B) n l :
  (forall a, List.length (f a) = n) ->
  List.length (flat_map f l) = (List.length l * n)%nat.
Proof.
  intros H. induction l as [|a l IH]; simpl; [reflexivity|].
  rewrite length_app, IH, H. reflexivity.
Qed.

Lemma cartesian_length config :
  List.length (cartesian config) = product (list_sizes config).
Proof.
  induction config as [|[k v] config IH]; simpl; [reflexivity|].
  destruct v; simpl; try (rewrite length_map; exact IH).
  rewrite (length_flat_map_const _ (List.length (cartesian config))).
  - unfold product in *. rewrite IH. reflexivity.
  - intros a. apply length_map.
Qed.

Lemma cartesian_picks config : forall d,
  In d (cartesian config) <-> picks config d.
Proof.
  unfold picks.
  induction config as [|[k v] config IH]; intros d; simpl.
  - split.
    + intros [<-|[]]. constructor.
    + intros H. inversion H. now left.
  - assert (Hscalar : type_is_list v = false ->
              (In d (map (cons (k, v)) (cartesian config)) <->
               Forall2 (fun kv kv' => fst kv' = fst kv /\ picks_value (snd kv) (snd kv'))
                 ((k, v) :: config) d)).
    { intros Hv. rewrite in_map_iff. split.
      - intros (d' & <- & Hin). constructor; [|now apply IH].
        simpl. split; [reflexivity|]. destruct v; try reflexivity; discriminate.
      - intros H. inversion H as [|? [k' v'] ? d' [Hk Hp] Hrest]; subst.
        simpl in Hk, Hp. subst k'. exists d'. split; [|now apply IH].
        destruct v; simpl in Hp; subst; try reflexivity; discriminate. }
    destruct v as [|b|z|s|l]; try (apply Hscalar; reflexivity).
    rewrite in_flat_map. split.
    + intros (arg & Harg & Hin). apply in_map_iff in Hin as (d' & <- & Hin).
      constructor; [simpl; auto|now apply IH].
    + intros H. inversion H as [|? [k' v'] ? d' [Hk Hp] Hrest]; subst.
      simpl in Hk, Hp. subst k'. exists v'. split; [exact Hp|].
      apply in_map_iff. exists d'. split; [reflexivity|now apply IH].
Qed.

Lemma cartesian_NoDup config :
  distinct_choices config -> NoDup (cartesian config).
Proof.
  unfold distinct_choices.
  induction config as [|[k v] config IH]; intros Hd; simpl.
  - apply NoDup_singleton.
  - inversion Hd as [|? ? Hv Hrest]; subst. specialize (IH Hrest).
    assert (Hmap : forall w, NoDup (map (cons (k, w)) (cartesian config))).
    { intros w. apply (NoDup_fmap_2 (cons (k, w)));
        first [exact IH | intros x y Hxy; now inversion Hxy]. }
    destruct v as [|b|z|s|l]; try apply Hmap.
    simpl in Hv. clear Hd. induction Hv as [|a l Ha Hl IHl]; simpl.
    + constructor.
    + apply NoDup_app. split; [apply Hmap|]. split; [|exact IHl].
      intros d Hd Hd'. apply list_elem_of_In in Hd, Hd'.
      apply in_map_iff in Hd as (d1 & <- & _).
      apply in_flat_map in Hd' as (a' & Ha' & Hd').
      apply in_map_iff in Hd' as (d2 & Heq & _).
      inversion Heq; subst. apply Ha. now apply list_elem_of_In.
Qed.

(** C1 (as amended).  A configuration without list-valued fields explodes
    to itself alone.  If every list-valued field holds a non-empty list of
    scalars, [explode] returns the Cartesian product over those fields, the
    first field varying slowest: as many configurations as the product of
    the list sizes; each one is the original with every list replaced by
    one of its elements; every such choice is there; and it is there once
    when no list repeats an element. *)
Theorem explode_cartesian_product (config : dict) :
  (first_list config = None -> explode config = [config]) /\
  (dict_wf config -> flat_config config = true ->
     explode config = cartesian config /\
     List.length (explode config) = product (list_sizes config) /\
     (forall d, In d (explode config) <-> picks config d) /\
     (distinct_choices config -> NoDup (explode config))).
Proof.
  split.
  - intros Hnone. unfold explode. simpl.
    rewrite explode_items_first, Hnone. reflexivity.
  - intros Hwf Hflat.
    rewrite (explode_is_cartesian config Hwf Hflat).
    split; [reflexivity|]. split; [apply cartesian_length|].
    split; [apply cartesian_picks|apply cartesian_NoDup].
Qed.

Lemma explode_cartesian_product_witness :
  let config := [("a", VList [VInt 1; VInt 2]); ("b", VStr "x");
                 ("c", VList [VBool true; VBool false])] in
  explode config =
    [[("a", VInt 1); ("b", VStr "x"); ("c", VBool true)];
     [("a", VInt 1); ("b", VStr "x"); ("c", VBool false)];
     [("a", VInt 2); ("b", VStr "x"); ("c", VBool true)];
     [("a", VInt 2); ("b", VStr "x"); ("c", VBool false)]] /\
  List.length (explode config) = 4%nat /\
  NoDup (explode config) /\
  explode [("b", VStr "x")] = [[("b", VStr "x")]] /\
  explode [] = [[]].
Proof.
  intros config.
  assert (Hwf : dict_wf config).
  { unfold dict_wf, config. simpl. distinct. }
  destruct (explode_cartesian_product config) as [_ H].
  destruct (H Hwf eq_refl) as (Hc & Hlen & _ & Hnd).
  split; [rewrite Hc; reflexivity|].
  split; [rewrite Hlen; reflexivity|].
  split.
  - apply Hnd. unfold distinct_choices, config.
    repeat (apply Forall_cons; split; [simpl; first [exact I | distinct]|]).
    apply Forall_nil_2.
  - split.
    + apply (proj1 (explode_cartesian_product [("b", VStr "x")])). reflexivity.
    + apply (proj1 (explode_cartesian_product [])). reflexivity.
Defined.

(** The product rule fails on an empty list, which is left in place in a
    single result, and on a list of lists, which is exploded further. *)
Lemma explode_product_counterexample :
  (let config := [("a", VList []); ("b", VList [VInt 1; VInt 2])] in
   explode config = [config] /\
   List.length (explode config) <> product (list_sizes config)) /\
  (let config := [("a", VList [VList [VInt 1; VInt 2]])] in
   explode config = [[("a", VInt 1)]; [("a", VInt 2)]] /\
   List.length (explode config) <> product (list_sizes config) /\
   ~ (forall d, In d (explode config) -> picks config d)).
Proof.
  split; simpl.
  - split; [reflexivity|]. vm_compute. discriminate.
  - split; [reflexivity|]. split; [vm_compute; discriminate|].
    intros H. specialize (H [("a", VInt 1)] (or_introl eq_refl)).
    inversion H as [|? ? ? ? [_ Hp] _]; subst. simpl in Hp.
    destruct Hp as [Hp|[]]. discriminate.
Qed.

(* ================================================================= *)
(** ** params_to_flags *)

Lemma fold_left_append {A B} (emit : A -> list B) (f : list B -> A -> list B) :
  (forall acc a, f acc a = acc ++ emit a) ->
  forall l acc, fold_left f l acc = acc ++ flat_map emit l.
Proof.
  intros Hf. induction l as [|a l IH]; intros acc; simpl.
  - now rewrite app_nil_r.
  - rewrite IH, Hf, <- app_assoc. reflexivity.
Qed.

Lemma params_to_flags_flat_map params :
  params_to_flags params = flat_map (fun kv => params_to_flags [kv]) params.
Proof.
  unfold params_to_flags at 1.
  erewrite fold_left_append; [reflexivity|].
  intros acc [flag value]. cbn.
  destruct value as [|[]|z|s|l]; cbn; rewrite <- ?app_assoc, ?app_nil_r; reflexivity.
Qed.

Lemma params_to_flags_app p1 p2 :
  params_to_flags (p1 ++ p2) = params_to_flags p1 ++ params_to_flags p2.
Proof. rewrite !params_to_flags_flat_map. apply flat_map_app. Qed.

(** C4 (as amended).  Each field is rendered on its own, in the order of the
    mapping: a true boolean as the bare flag, a false boolean as nothing, any
    other value as the flag and then [str(value)] as a token of its own.  The
    flag is the name after one dash when the name has one character, after
    two when it has more; so [{k: "v"}] gives [-k v], with one dash. *)
Theorem params_to_flags_rendering :
  (forall p1 p2,
     params_to_flags (p1 ++ p2) = params_to_flags p1 ++ params_to_flags p2) /\
  (forall flag, exists token,
     (String.length flag = 1%nat -> token = "-" +:+ flag) /\
     ((1 < String.length flag)%nat -> token = "--" +:+ flag) /\
     params_to_flags [(flag, VBool true)] = [token] /\
     params_to_flags [(flag, VBool false)] = [] /\
     (forall value, isinstance_bool value = false ->
        params_to_flags [(flag, value)] = [token; py_str value])) /\
  params_to_flags [("verbose", VBool true)] = ["--verbose"] /\
  params_to_flags [("verbose", VBool false)] = [] /\
  params_to_flags [("k", VStr "v")] = ["-k"; "v"] /\
  params_to_flags [("key", VStr "v")] = ["--key"; "v"] /\
  params_to_flags [("x", VInt 5)] = ["-x"; "5"].
Proof.
  split; [exact params_to_flags_app|].
  split; [|repeat split; reflexivity].
  intros flag.
  exists ((if (1 <? String.length flag)%nat then "--" else "-") +:+ flag).
  split; [|split; [|split; [|split]]].
  - intros ->. reflexivity.
  - intros Hlen. apply Nat.ltb_lt in Hlen. now rewrite Hlen.
  - cbn. now destruct (1 <? String.length flag)%nat.
  - reflexivity.
  - intros value Hv. cbn.
    destruct value; try discriminate;
      now destruct (1 <? String.length flag)%nat.
Qed.

(** The specification's example for [{k: "v"}] has two dashes; the name has
    one character and gets one. *)
Lemma params_to_flags_counterexample :
  params_to_flags [("k", VStr "v")] <> ["--k"; "v"].
Proof. discriminate. Qed.

(* ================================================================= *)
(** ** DummyInstance.args *)

Lemma dummy_args_flat_map name params r t escape :
  DummyInstance.args (DummyInstance.Build name params) r t escape =
  flat_map (fun kv => DummyInstance.args (DummyInstance.Build name [kv]) r t escape)
           params.
Proof.
  unfold DummyInstance.args at 1. simpl.
  erewrite fold_left_append; [reflexivity|].
  intros acc [key value]. cbn.
  destruct (negb (String.eqb key "nokey")), (negb (isinstance_bool value));
    cbn; rewrite <- ?app_assoc, ?app_nil_r; reflexivity.
Qed.

(** C10 (as amended).  Each parameter is rendered on its own, in order.  A
    boolean parameter whose key is not ["nokey"] gives its flag and nothing
    else, whether it is True or False; any other value gives the flag and
    then the value between double quotes.  Under the key ["nokey"] no flag
    is written: a value that is not a boolean gives the quoted value alone,
    and a boolean gives nothing at all. *)
Theorem dummy_args_rendering (name : value) (r t : Z) (escape : bool) :
  let args params :=
    DummyInstance.args (DummyInstance.Build name params) r t escape in
  let quoted value := String dquote (py_str value +:+ String dquote "") in
  (forall p1 p2, args (p1 ++ p2) = args p1 ++ args p2) /\
  (forall key b, key <> "nokey" -> args [(key, VBool b)] = ["--" +:+ key]) /\
  (forall key value, key <> "nokey" -> isinstance_bool value = false ->
     args [(key, value)] = ["--" +:+ key; quoted value]) /\
  (forall value, isinstance_bool value = false ->
     args [("nokey", value)] = [quoted value]) /\
  (forall b, args [("nokey", VBool b)] = []).
Proof.
  intros args quoted. unfold args.
  split; [|split; [|split; [|split]]].
  - intros p1 p2. rewrite !(dummy_args_flat_map name). apply flat_map_app.
  - intros key b Hk. apply String.eqb_neq in Hk. cbn. now rewrite Hk.
  - intros key value Hk Hv. apply String.eqb_neq in Hk. cbn.
    rewrite Hk, Hv. reflexivity.
  - intros value Hv. cbn. now rewrite Hv.
  - reflexivity.
Qed.

Lemma dummy_args_rendering_witness :
  DummyInstance.args
    (DummyInstance.Build (VStr "dummy")
       [("size", VInt 3); ("fast", VBool false); ("nokey", VStr "in.txt")])
    4 1 true
  = ["--size"; String dquote ("3" +:+ String dquote "");
     "--fast"; String dquote ("in.txt" +:+ String dquote "")].
Proof.
  destruct (dummy_args_rendering (VStr "dummy") 4 1 true)
    as (Happ & Hbool & Hval & Hnokey & _).
  change [("size", VInt 3); ("fast", VBool false); ("nokey", VStr "in.txt")]
    with ([("size", VInt 3)] ++ [("fast", VBool false)] ++ [("nokey", VStr "in.txt")]).
  rewrite !Happ.
  rewrite (Hval "size" (VInt 3)) by (discriminate || reflexivity).
  rewrite (Hbool "fast" false) by discriminate.
  rewrite (Hnokey (VStr "in.txt")) by reflexivity.
  reflexivity.
Defined.

(** A boolean under the key ["nokey"] gives neither a flag nor a quoted
    value. *)
Lemma dummy_args_counterexample :
  let self := DummyInstance.Build (VStr "dummy") [("nokey", VBool true)] in
  DummyInstance.args self 1 1 true = [] /\
  ~ In "--nokey" (DummyInstance.args self 1 1 true) /\
  ~ In (String dquote ("True" +:+ String dquote ""))
       (DummyInstance.args self 1 1 true).
Proof. cbn. tauto. Qed.

(* ================================================================= *)
(** ** FileInputGraph.args *)

(** C2 (as amended).  With the partitioned flag set and more than one rank,
    [args] logs an error and ends the process with status 1 when the
    partition map has no entry for that rank count or has an empty one, and
    returns arguments that end with the partition file when the entry is a
    non-empty path.  Unpartitioned, or with at most one rank, it returns the
    file arguments whatever the partition map holds, and never fails. *)
Theorem file_input_args_partitioning
    (self : FileInputGraph.t) (mpi_ranks threads_per_rank : Z) (escape : bool)
    (w : world) :
  let file_args :=
    ["--graphtype"; "BRAIN"; "--infile_dir"; FileInputGraph.path self] in
  let call := FileInputGraph.args self mpi_ranks threads_per_rank escape w in
  (FileInputGraph.partitioned self = true -> 1 < mpi_ranks ->
     (FileInputGraph.partitions self !! mpi_ranks = None \/
      FileInputGraph.partitions self !! mpi_ranks = Some "" ->
      call = (Exits 1,
              World (heap w)
                (log w ++ [LogError ("Could not load partitioning for p="
                                     +:+ str_int mpi_ranks +:+ " for input "
                                     +:+ FileInputGraph.name self)]))) /\
     (forall file, FileInputGraph.partitions self !! mpi_ranks = Some file ->
        file <> "" ->
        call = (Returns (file_args ++ ["--partitioning"; file]), w))) /\
  (FileInputGraph.partitioned self = false \/ mpi_ranks <= 1 ->
     call = (Returns file_args, w) /\
     forall partitions,
       FileInputGraph.args
         (FileInputGraph.Build (FileInputGraph._name self)
            (FileInputGraph.path self) (FileInputGraph.format self)
            partitions (FileInputGraph.partitioned self))
         mpi_ranks threads_per_rank escape w = call).
Proof.
  intros file_args call. unfold call, FileInputGraph.args. split.
  - intros Hp Hr. apply Z.ltb_lt in Hr. rewrite Hp, Hr. simpl. split.
    + intros [Hn|Hn]; rewrite Hn; reflexivity.
    + intros file Hf Hne. rewrite Hf. destruct file; [congruence|reflexivity].
  - intros Hcase.
    assert (Hc : FileInputGraph.partitioned self && (1 <? mpi_ranks) = false).
    { destruct Hcase as [Hp|Hr]; [now rewrite Hp|].
      apply andb_false_iff. right. now apply Z.ltb_ge. }
    rewrite Hc. split; [reflexivity|]. intros partitions. simpl.
    now rewrite Hc.
Qed.

Lemma file_input_args_partitioning_witness :
  let self := FileInputGraph.Build "web" "graphs/web" "metis"
                {[ 4 := "web.4.part" ]} true in
  let w := World ∅ [] in
  FileInputGraph.args self 4 1 true w =
    (Returns ["--graphtype"; "BRAIN"; "--infile_dir"; "graphs/web";
              "--partitioning"; "web.4.part"], w) /\
  FileInputGraph.args self 8 1 true w =
    (Exits 1, World ∅ [LogError "Could not load partitioning for p=8 for input web_partitioned"]) /\
  FileInputGraph.args self 1 1 true w =
    (Returns ["--graphtype"; "BRAIN"; "--infile_dir"; "graphs/web"], w).
Proof.
  intros self w.
  destruct (file_input_args_partitioning self 4 1 true w) as [H4 _].
  destruct (file_input_args_partitioning self 8 1 true w) as [H8 _].
  destruct (file_input_args_partitioning self 1 1 true w) as [_ H1].
  assert (L4 : 1 < 4) by reflexivity.
  assert (L8 : 1 < 8) by reflexivity.
  assert (L1 : 1 <= 1) by discriminate.
  split; [|split].
  - apply (proj2 (H4 eq_refl L4)); [reflexivity|discriminate].
  - apply (proj1 (H8 eq_refl L8)). left. reflexivity.
  - apply (proj1 (H1 (or_intror L1))).
Defined.

(** An entry that exists but is empty is treated as a missing one. *)
Lemma file_input_args_counterexample :
  let self := FileInputGraph.Build "web" "graphs/web" "metis" {[ 4 := "" ]} true in
  is_Some (FileInputGraph.partitions self !! 4) /\
  FileInputGraph.args self 4 1 true (World ∅ []) =
    (Exits 1, World ∅ [LogError "Could not load partitioning for p=4 for input web_partitioned"]).
Proof. split; [eexists|]; reflexivity. Qed.

(* ================================================================= *)
(** ** KaGenGraph *)

Lemma size_argument_valid kwargs direct exponent e k :
  dict_get exponent kwargs = Some e -> py_int e = Returns k -> 0 <= k ->
  KaGenGraph.size_argument kwargs direct exponent =
  Returns (match dict_get direct kwargs with
           | Some v => v
           | None => VInt (2 ^ k)
           end).
Proof.
  intros He Hk Hpos. unfold KaGenGraph.size_argument. rewrite He, Hk. simpl.
  unfold one_lshift. destruct (k <? 0) eqn:E; [apply Z.ltb_lt in E; lia|].
  simpl. rewrite Z.shiftl_1_l. reflexivity.
Qed.

Lemma size_argument_int kwargs direct exponent e k :
  dict_get exponent kwargs = Some e -> py_int e = Returns k ->
  KaGenGraph.size_argument kwargs direct exponent =
  if k <? 0 then Raises ValueError None
  else Returns (match dict_get direct kwargs with
                | Some v => v
                | None => VInt (2 ^ k)
                end).
Proof.
  intros He Hk. unfold KaGenGraph.size_argument. rewrite He, Hk. simpl.
  unfold one_lshift. destruct (k <? 0) eqn:E; [reflexivity|].
  simpl. rewrite Z.shiftl_1_l. reflexivity.
Qed.

Lemma size_argument_null kwargs direct exponent e :
  dict_get exponent kwargs = Some e -> py_int e = Raises TypeError None ->
  KaGenGraph.size_argument kwargs direct exponent = Returns VNone.
Proof.
  intros He Hk. unfold KaGenGraph.size_argument. rewrite He, Hk. reflexivity.
Qed.

(** What a finished construction tells about its steps. *)
Lemma kagen_init_returns kwargs self :
  KaGenGraph.__init__ kwargs = Returns self ->
  dict_mem "type" kwargs = true /\
  KaGenGraph.size_argument kwargs "n" "N" = Returns (KaGenGraph.n self) /\
  KaGenGraph.size_argument kwargs "m" "M" = Returns (KaGenGraph.m self).
Proof.
  unfold KaGenGraph.__init__. intros H.
  destruct (dict_mem "type" kwargs); [|discriminate]. simpl in H.
  destruct (KaGenGraph.size_argument kwargs "n" "N") as [vn| |]; try discriminate.
  destruct (KaGenGraph.size_argument kwargs "m" "M") as [vm| |]; try discriminate.
  simpl in H. injection H as <-. auto.
Qed.

(** An exponent the construction gets past: [int] turns it into an integer
    that is not negative, or rejects its type (as it does for a null). *)
Lemma size_argument_accepted kwargs direct exponent e :
  dict_get exponent kwargs = Some e ->
  py_int e = Raises TypeError None \/ (exists k, py_int e = Returns k /\ 0 <= k) ->
  exists v, KaGenGraph.size_argument kwargs direct exponent = Returns v.
Proof.
  intros He [Hk | [k [Hk Hpos]]].
  - eexists. apply (size_argument_null _ _ _ _ He Hk).
  - eexists. apply (size_argument_valid _ _ _ _ _ He Hk Hpos).
Qed.

(** C5 (as amended).  Given both a direct vertex count [n] and an exponent
    [N] that [int] turns into an integer, the vertex count of the object
    that is built is the directly given [n], not [2^N], whatever the other
    arguments are; [2^N] is the vertex count when [n] is not given.  The same
    holds for [m] and [M].  The exponent is converted first all the same: a
    negative one makes the construction raise although [n] is given.  The
    object is built when there is a type and each of [N] and [M] is an
    exponent that is not negative or one whose type [int] rejects. *)
Theorem kagen_init_direct_precedence (kwargs : dict) :
  (forall n eN kN self,
     dict_get "n" kwargs = Some n ->
     dict_get "N" kwargs = Some eN -> py_int eN = Returns kN ->
     KaGenGraph.__init__ kwargs = Returns self ->
     KaGenGraph.n self = n) /\
  (forall m eM kM self,
     dict_get "m" kwargs = Some m ->
     dict_get "M" kwargs = Some eM -> py_int eM = Returns kM ->
     KaGenGraph.__init__ kwargs = Returns self ->
     KaGenGraph.m self = m) /\
  (forall eN kN self,
     dict_get "n" kwargs = None ->
     dict_get "N" kwargs = Some eN -> py_int eN = Returns kN ->
     KaGenGraph.__init__ kwargs = Returns self ->
     KaGenGraph.n self = VInt (2 ^ kN)) /\
  (forall eM kM self,
     dict_get "m" kwargs = None ->
     dict_get "M" kwargs = Some eM -> py_int eM = Returns kM ->
     KaGenGraph.__init__ kwargs = Returns self ->
     KaGenGraph.m self = VInt (2 ^ kM)) /\
  (forall eN kN,
     dict_mem "type" kwargs = true ->
     dict_get "N" kwargs = Some eN -> py_int eN = Returns kN -> kN < 0 ->
     KaGenGraph.__init__ kwargs = Raises ValueError None) /\
  (forall eN eM,
     dict_mem "type" kwargs = true ->
     dict_get "N" kwargs = Some eN ->
     py_int eN = Raises TypeError None \/ (exists kN, py_int eN = Returns kN /\ 0 <= kN) ->
     dict_get "M" kwargs = Some eM ->
     py_int eM = Raises TypeError None \/ (exists kM, py_int eM = Returns kM /\ 0 <= kM) ->
     exists self, KaGenGraph.__init__ kwargs = Returns self).
Proof.
  repeat split.
  - intros n eN kN self Hn HN Hk Hinit.
    destruct (kagen_init_returns _ _ Hinit) as (_ & Hsize & _).
    rewrite (size_argument_int _ _ _ _ _ HN Hk), Hn in Hsize.
    destruct (kN <? 0); [discriminate|]. congruence.
  - intros m eM kM self Hm HM Hk Hinit.
    destruct (kagen_init_returns _ _ Hinit) as (_ & _ & Hsize).
    rewrite (size_argument_int _ _ _ _ _ HM Hk), Hm in Hsize.
    destruct (kM <? 0); [discriminate|]. congruence.
  - intros eN kN self Hn HN Hk Hinit.
    destruct (kagen_init_returns _ _ Hinit) as (_ & Hsize & _).
    rewrite (size_argument_int _ _ _ _ _ HN Hk), Hn in Hsize.
    destruct (kN <? 0); [discriminate|]. congruence.
  - intros eM kM self Hm HM Hk Hinit.
    destruct (kagen_init_returns _ _ Hinit) as (_ & _ & Hsize).
    rewrite (size_argument_int _ _ _ _ _ HM Hk), Hm in Hsize.
    destruct (kM <? 0); [discriminate|]. congruence.
  - intros eN kN Ht HN Hk Hneg. unfold KaGenGraph.__init__. rewrite Ht. simpl.
    rewrite (size_argument_int _ _ _ _ _ HN Hk).
    apply Z.ltb_lt in Hneg. rewrite Hneg. reflexivity.
  - intros eN eM Ht HN HaN HM HaM. unfold KaGenGraph.__init__. rewrite Ht. simpl.
    destruct (size_argument_accepted kwargs "n" "N" eN HN HaN) as [vn ->].
    destruct (size_argument_accepted kwargs "m" "M" eM HM HaM) as [vm ->].
    simpl. eexists. reflexivity.
Qed.

(** Four constructions: the vertex count in both forms and a null edge
    exponent; the edge count in both forms and the vertex count as an
    exponent only; the edge count as an exponent only; a negative vertex
    exponent next to a direct vertex count. *)
Lemma kagen_init_direct_precedence_witness :
  let both_n := [("type", VStr "rgg2d"); ("n", VInt 1000); ("N", VInt 20);
                 ("M", VNone)] in
  let both_m := [("type", VStr "rgg2d"); ("N", VInt 20); ("m", VInt 5000);
                 ("M", VInt 22)] in
  let negative := [("type", VStr "rgg2d"); ("n", VInt 1000); ("N", VInt (-1));
                   ("M", VInt 22)] in
  (exists self,
     KaGenGraph.__init__ both_n = Returns self /\ KaGenGraph.n self = VInt 1000) /\
  (exists self,
     KaGenGraph.__init__ both_m = Returns self /\
     KaGenGraph.m self = VInt 5000 /\ KaGenGraph.n self = VInt (2 ^ 20)) /\
  (forall self,
     KaGenGraph.__init__ [("type", VStr "rgg2d"); ("N", VNone); ("M", VInt 22)]
     = Returns self -> KaGenGraph.m self = VInt (2 ^ 22)) /\
  KaGenGraph.__init__ negative = Raises ValueError None.
Proof.
  intros both_n both_m negative.
  assert (Hint : forall k, 0 <= k ->
            py_int (VInt k) = Raises TypeError None \/
            (exists k', py_int (VInt k) = Returns k' /\ 0 <= k')).
  { intros k Hk. right. exists k. split; [reflexivity|exact Hk]. }
  assert (Hnull : py_int VNone = Raises TypeError None \/
                  (exists k', py_int VNone = Returns k' /\ 0 <= k'))
    by (left; reflexivity).
  assert (H20 : 0 <= 20) by discriminate.
  assert (H22 : 0 <= 22) by discriminate.
  assert (Hneg : -1 < 0) by reflexivity.
  split; [|split; [|split]].
  - destruct (kagen_init_direct_precedence both_n) as (Hn & _ & _ & _ & _ & Hbuilt).
    destruct (Hbuilt (VInt 20) VNone eq_refl eq_refl (Hint 20 H20) eq_refl Hnull)
      as [self Hself].
    exists self. split; [exact Hself|].
    exact (Hn (VInt 1000) (VInt 20) 20 self eq_refl eq_refl eq_refl Hself).
  - destruct (kagen_init_direct_precedence both_m) as (_ & Hm & Hn & _ & _ & Hbuilt).
    destruct (Hbuilt (VInt 20) (VInt 22) eq_refl eq_refl (Hint 20 H20) eq_refl
                (Hint 22 H22)) as [self Hself].
    exists self. split; [exact Hself|]. split.
    + exact (Hm (VInt 5000) (VInt 22) 22 self eq_refl eq_refl eq_refl Hself).
    + exact (Hn (VInt 20) 20 self eq_refl eq_refl eq_refl Hself).
  - intros self Hself.
    destruct (kagen_init_direct_precedence
                [("type", VStr "rgg2d"); ("N", VNone); ("M", VInt 22)])
      as (_ & _ & _ & Hm & _ & _).
    exact (Hm (VInt 22) 22 self eq_refl eq_refl eq_refl Hself).
  - destruct (kagen_init_direct_precedence negative) as (_ & _ & _ & _ & Hraise & _).
    exact (Hraise (VInt (-1)) (-1) eq_refl eq_refl eq_refl Hneg).
Defined.

(** Given both [n] and [N], the vertex count is [n]. *)
Lemma kagen_init_counterexample :
  exists self,
    KaGenGraph.__init__
      [("type", VStr "rgg2d"); ("n", VInt 1000); ("N", VInt 20);
       ("m", VInt 5000); ("M", VInt 22)]
    = Returns self /\
    KaGenGraph.n self = VInt 1000 /\ KaGenGraph.n self <> VInt (2 ^ 20) /\
    KaGenGraph.m self = VInt 5000 /\ KaGenGraph.m self <> VInt (2 ^ 22).
Proof.
  eexists. split; [reflexivity|]. simpl.
  repeat split; try reflexivity; discriminate.
Qed.

(** C6.  With base vertex count [n0], [get_n p] is [n0 * p] under weak
    scaling and [n0] otherwise.  Without weak scaling the arguments of the
    input are the same for every number of ranks and threads; with it, the
    size they carry is [n0] times the product of the two.  In particular the
    graph built from the exponent 20 has size [2^20] for every [p] when weak
    scaling is off, and [2^20 * p] when it is on.  The name is made of the
    logarithm of the base count, the parameters and the weak-scaling mark:
    the parallelism asked for is no part of it. *)
Theorem kagen_get_n_scaling :
  (forall (self : KaGenGraph.t) (n0 p : Z),
     KaGenGraph.n self = VInt n0 ->
     KaGenGraph.get_n self p =
     Returns (VInt (if truthy (KaGenGraph.scale_weak self) then n0 * p else n0))) /\
  (forall (self : KaGenGraph.t) r1 t1 r2 t2 escape,
     truthy (KaGenGraph.scale_weak self) = false ->
     KaGenGraph.args self r1 t1 escape = KaGenGraph.args self r2 t2 escape) /\
  (forall (self : KaGenGraph.t) (n0 r t : Z),
     KaGenGraph.n self = VInt n0 -> n0 <> 0 -> KaGenGraph.m self = VNone ->
     truthy (KaGenGraph.scale_weak self) = true ->
     KaGenGraph.args self r t false =
     Returns ["--kagen_option_string";
              join ";" (KaGenGraph.stringify_params self
                        ++ ["n=" +:+ str_int (n0 * (r * t))])]) /\
  (forall weak, exists self,
     KaGenGraph.__init__
       [("type", VStr "rgg2d"); ("N", VInt 20); ("M", VNone);
        ("scale_weak", VBool weak)] = Returns self /\
     forall p, KaGenGraph.get_n self p =
               Returns (VInt (if weak then 2 ^ 20 * p else 2 ^ 20))) /\
  (forall (L : Libraries) (self : KaGenGraph.t) (n0 l : Z),
     KaGenGraph.n self = VInt n0 -> n0 <> 0 -> KaGenGraph.m self = VNone ->
     int_log2 (VInt n0) = Returns l ->
     KaGenGraph.name self =
     Returns (slugify ("KaGen_" +:+
                join "_" (["n=" +:+ str_int l]
                          ++ KaGenGraph.stringify_params self
                          ++ (if truthy (KaGenGraph.scale_weak self)
                              then ["weak"] else []))))).
Proof.
  split; [|split; [|split; [|split]]]; cycle 4.
  { intros L self n0 l Hn Hn0 Hm Hl. unfold KaGenGraph.name.
    rewrite Hn, Hm, Hl. simpl.
    destruct (n0 =? 0) eqn:E; [apply Z.eqb_eq in E; contradiction|]. simpl.
    destruct (truthy (KaGenGraph.scale_weak self));
      rewrite <- ?app_assoc, ?app_nil_r; reflexivity. }
  - intros self n0 p Hn. unfold KaGenGraph.get_n. rewrite Hn.
    now destruct (truthy (KaGenGraph.scale_weak self)).
  - intros self r1 t1 r2 t2 escape Hw.
    unfold KaGenGraph.args, KaGenGraph.get_n, KaGenGraph.get_m.
    rewrite Hw. reflexivity.
  - intros self n0 r t Hn Hn0 Hm Hw.
    unfold KaGenGraph.args, KaGenGraph.get_n, KaGenGraph.get_m.
    rewrite Hn, Hm, Hw. simpl.
    destruct (n0 =? 0) eqn:E; [apply Z.eqb_eq in E; contradiction|].
    reflexivity.
  - intros weak. eexists. split; [reflexivity|].
    intros p. unfold KaGenGraph.get_n. simpl. now destruct weak.
Qed.

Lemma kagen_get_n_scaling_witness :
  let self := KaGenGraph.Build (VInt 1048576) VNone (VBool true)
                [("type", VStr "rgg2d")] in
  KaGenGraph.get_n self 8 = Returns (VInt 8388608) /\
  KaGenGraph.args self 4 2 false =
    Returns ["--kagen_option_string"; "type=rgg2d;n=8388608"].
Proof.
  intros self.
  destruct kagen_get_n_scaling as (Hget & _ & Hargs & _).
  split.
  - apply (Hget self 1048576 8). reflexivity.
  - apply (Hargs self 1048576 4 2); [reflexivity|discriminate|reflexivity|reflexivity].
Defined.

(* ================================================================= *)
(** ** Queue selection *)

Lemma supermuc_queue_of_nodes cores tasks_per_node use_test_partition nodes :
  SBatchRunner.required_nodes cores tasks_per_node = Returns nodes ->
  SuperMUCRunner.get_queue cores tasks_per_node use_test_partition =
  Returns (if nodes <=? 16 then (if use_test_partition then "test" else "micro")
           else if nodes <=? 768 then "general" else "large").
Proof.
  intros Hn. unfold SuperMUCRunner.get_queue. rewrite Hn. simpl.
  destruct (nodes <=? 16); [reflexivity|]. now destruct (nodes <=? 768).
Qed.

(** C7.  On SuperMUC a job of at most 16 nodes goes to [test] when the test
    partition is asked for and to [micro] otherwise, one of 17 to 768 nodes
    to [general], a larger one to [large]; it needs 2 islands when it has
    more than 768 nodes and 1 otherwise. *)
Theorem supermuc_queue_selection
    (cores tasks_per_node : Z) (use_test_partition : bool) (nodes : Z) :
  SBatchRunner.required_nodes cores tasks_per_node = Returns nodes ->
  let queue := SuperMUCRunner.get_queue cores tasks_per_node use_test_partition in
  (nodes <= 16 ->
     queue = Returns (if use_test_partition then "test" else "micro")) /\
  (16 < nodes <= 768 -> queue = Returns "general") /\
  (768 < nodes -> queue = Returns "large") /\
  (768 < nodes -> SuperMUCRunner.required_islands nodes = 2) /\
  (nodes <= 768 -> SuperMUCRunner.required_islands nodes = 1).
Proof.
  intros Hn queue. unfold queue.
  rewrite (supermuc_queue_of_nodes _ _ _ _ Hn).
  unfold SuperMUCRunner.required_islands.
  repeat split; intros H.
  - apply Z.leb_le in H. now rewrite H.
  - destruct (nodes <=? 16) eqn:E1; [apply Z.leb_le in E1; lia|].
    destruct (nodes <=? 768) eqn:E2; [reflexivity|apply Z.leb_gt in E2; lia].
  - destruct (nodes <=? 16) eqn:E1; [apply Z.leb_le in E1; lia|].
    destruct (nodes <=? 768) eqn:E2; [apply Z.leb_le in E2; lia|reflexivity].
  - apply Z.ltb_lt in H. now rewrite H.
  - destruct (768 <? nodes) eqn:E; [apply Z.ltb_lt in E; lia|reflexivity].
Qed.

Lemma supermuc_queue_selection_witness :
  SuperMUCRunner.get_queue (16 * 48) 48 false = Returns "micro" /\
  SuperMUCRunner.get_queue (16 * 48) 48 true = Returns "test" /\
  SuperMUCRunner.get_queue (17 * 48) 48 true = Returns "general" /\
  SuperMUCRunner.get_queue (769 * 48) 48 false = Returns "large" /\
  SuperMUCRunner.required_islands 769 = 2 /\
  SuperMUCRunner.required_islands 768 = 1.
Proof.
  assert (H16 : SBatchRunner.required_nodes (16 * 48) 48 = Returns 16)
    by (vm_compute; reflexivity).
  assert (H17 : SBatchRunner.required_nodes (17 * 48) 48 = Returns 17)
    by (vm_compute; reflexivity).
  assert (H769 : SBatchRunner.required_nodes (769 * 48) 48 = Returns 769)
    by (vm_compute; reflexivity).
  assert (H768 : SBatchRunner.required_nodes (768 * 48) 48 = Returns 768)
    by (vm_compute; reflexivity).
  split; [|split; [|split; [|split; [|split]]]].
  - apply (supermuc_queue_selection _ _ false 16 H16). discriminate.
  - apply (supermuc_queue_selection _ _ true 16 H16). discriminate.
  - apply (supermuc_queue_selection _ _ true 17 H17). split; [reflexivity|discriminate].
  - apply (supermuc_queue_selection _ _ false 769 H769). reflexivity.
  - apply (supermuc_queue_selection _ _ false 769 H769). reflexivity.
  - apply (supermuc_queue_selection _ _ false 768 H768). discriminate.
Defined.

Lemma horeka_queue_of_nodes cores tasks_per_node use_test_partition nodes :
  SBatchRunner.required_nodes cores tasks_per_node = Returns nodes ->
  HorekaRunner.get_queue cores tasks_per_node use_test_partition =
  Returns (if nodes <=? 12
           then QName (if use_test_partition then "dev_cpuonly" else "cpuonly")
           else if nodes <=? 192 then QName "cpuonly"
           else QException ValueError
                  "Cannot use more than 192 compute nodes on HoreKa!").
Proof.
  intros Hn. unfold HorekaRunner.get_queue. rewrite Hn. simpl.
  destruct (nodes <=? 12); [reflexivity|]. now destruct (nodes <=? 192).
Qed.

(** Beyond 192 nodes [get_queue] does not raise: the exception object is
    what it returns, and the caller goes on with it as the queue. *)
Lemma horeka_queue_over_limit cores tasks_per_node use_test_partition nodes :
  SBatchRunner.required_nodes cores tasks_per_node = Returns nodes ->
  192 < nodes ->
  HorekaRunner.get_queue cores tasks_per_node use_test_partition =
  Returns (QException ValueError
             "Cannot use more than 192 compute nodes on HoreKa!").
Proof.
  intros Hn H. rewrite (horeka_queue_of_nodes _ _ _ _ Hn).
  destruct (nodes <=? 12) eqn:E1; [apply Z.leb_le in E1; lia|].
  destruct (nodes <=? 192) eqn:E2; [apply Z.leb_le in E2; lia|reflexivity].
Qed.

(** C3, at the failing input.  For 193 nodes of 76 tasks [get_queue] returns
    normally, and what it returns is a [ValueError] object: nothing is
    raised and the process does not end.  Up to 192 nodes it names the
    queue as the specification says. *)
Theorem horeka_get_queue_193_nodes :
  SBatchRunner.required_nodes (193 * 76) 76 = Returns 193 /\
  HorekaRunner.get_queue (193 * 76) 76 false =
    Returns (QException ValueError
               "Cannot use more than 192 compute nodes on HoreKa!") /\
  (forall kind msg,
     HorekaRunner.get_queue (193 * 76) 76 false <> Raises kind msg) /\
  (forall status, HorekaRunner.get_queue (193 * 76) 76 false <> Exits status) /\
  HorekaRunner.get_queue (12 * 76) 76 true = Returns (QName "dev_cpuonly") /\
  HorekaRunner.get_queue (12 * 76) 76 false = Returns (QName "cpuonly") /\
  HorekaRunner.get_queue (192 * 76) 76 true = Returns (QName "cpuonly").
Proof.
  assert (H : HorekaRunner.get_queue (193 * 76) 76 false =
              Returns (QException ValueError
                         "Cannot use more than 192 compute nodes on HoreKa!"))
    by (vm_compute; reflexivity).
  rewrite H.
  repeat split; try (vm_compute; reflexivity); intros; discriminate.
Qed.

(* ================================================================= *)
(** ** BaseRunner.make_cmd_for_config *)

Lemma bind_heap {A B} (c : M A) (f : A -> M B) (w : world) (h : gmap loc dict) :
  heap (snd (c w)) = h ->
  (forall a w', heap w' = h -> heap (snd (f a w')) = h) ->
  heap (snd (bind c f w)) = h.
Proof.
  intros Hc Hf. unfold bind. destruct (c w) as [[a|kind msg|status] w']; simpl in *; auto.
Qed.

Lemma file_input_args_heap self mpi_ranks threads_per_rank escape w :
  heap (snd (FileInputGraph.args self mpi_ranks threads_per_rank escape w)) = heap w.
Proof.
  unfold FileInputGraph.args.
  destruct (FileInputGraph.partitioned self && (1 <? mpi_ranks)); [|reflexivity].
  destruct (FileInputGraph.partitions self !! mpi_ranks) as [[|c f]|]; reflexivity.
Qed.

Lemma input_args_heap i mpi_ranks threads_per_rank escape w :
  heap (snd (input_args i mpi_ranks threads_per_rank escape w)) = heap w.
Proof.
  destruct i; simpl; try reflexivity. apply file_input_args_heap.
Qed.

Section MakeCmdFrame.
Context `{Platform}.

Lemma command_heap binary_name binary_path i mpi_ranks threads_per_rank
    escape kwargs w :
  heap (snd (command binary_name binary_path i mpi_ranks threads_per_rank
               escape kwargs w)) = heap w.
Proof.
  unfold command. destruct binary_name as [binary_name|]; [|reflexivity].
  apply bind_heap; [|intros a w' Hw'; exact Hw'].
  destruct (input_truthy i); [|reflexivity].
  apply bind_heap; [apply input_args_heap|intros a w' Hw'; exact Hw'].
Qed.

(** The configuration a job is run with: the caller's, with the output
    path and the seed set unless the runner omits them. *)
Lemma make_cmd_for_config_heap self suite i config_job_name config_index
    mpi_ranks threads_per_rank seed config w d :
  heap w !! config = Some d ->
  let w' := snd (BaseRunner.make_cmd_for_config self suite i config_job_name
                   config_index mpi_ranks threads_per_rank seed config w) in
  let d1 := if BaseRunner.omit_json_output_path self then d
            else dict_set "json_output_path"
                   (VStr (path_join (BaseRunner.output_directory self)
                            (config_job_name +:+ "_timer.json"))) d in
  let d2 := if BaseRunner.omit_seed self then d1 else dict_set "seed" seed d1 in
  heap w' = <[fresh (dom (heap w)) := d2]> (heap w).
Proof.
  intros Hd w' d1 d2. unfold w', BaseRunner.make_cmd_for_config.
  unfold dict_copy, bind at 1 2. unfold deref at 1. rewrite Hd.
  unfold alloc. cbn [fst snd heap log].
  set (l := fresh (dom (heap w))).
  set (w1 := World (<[l := d]> (heap w)) (log w)).
  assert (Hw1 : heap w1 !! l = Some d) by (apply lookup_insert_eq).
  set (w2 := World (<[l := d1]> (heap w)) (log w)).
  assert (Hstep1 :
    (if negb (BaseRunner.omit_json_output_path self)
     then dict_setitem l "json_output_path"
            (VStr (path_join (BaseRunner.output_directory self)
                     (config_job_name +:+ "_timer.json")))
     else ret tt) w1 = (Returns tt, w2)).
  { unfold d1 in w2. unfold w2. destruct (BaseRunner.omit_json_output_path self); simpl.
    - reflexivity.
    - unfold dict_setitem, bind, deref. rewrite Hw1. unfold store, w1. simpl.
      now rewrite insert_insert_eq. }
  unfold bind at 1. rewrite Hstep1.
  set (w3 := World (<[l := d2]> (heap w)) (log w)).
  assert (Hstep2 :
    (if negb (BaseRunner.omit_seed self)
     then dict_setitem l "seed" seed else ret tt) w2 = (Returns tt, w3)).
  { unfold d2 in w3. unfold w3. destruct (BaseRunner.omit_seed self); simpl.
    - reflexivity.
    - unfold dict_setitem, bind, deref.
      assert (Hw2 : heap w2 !! l = Some d1) by (apply lookup_insert_eq).
      rewrite Hw2. unfold store, w2. simpl. now rewrite insert_insert_eq. }
  unfold bind at 1. rewrite Hstep2.
  unfold bind, deref.
  assert (Hw3 : heap w3 !! l = Some d2) by (apply lookup_insert_eq).
  rewrite Hw3.
  destruct (existsb _ _); [reflexivity|].
  rewrite command_heap. reflexivity.
Qed.

(** C9.  [make_cmd_for_config] works on a copy: whatever it returns, and
    whether or not it returns, every dictionary that existed before the
    call, the caller's configuration among them, has the items it had.  The
    one new object is the copy, and it is there that the output path and
    the seed are set, unless the runner omits them. *)
Theorem make_cmd_for_config_frame
    (self : BaseRunner.t) (suite : ExperimentSuite.t) (i : input)
    (config_job_name : string) (config_index mpi_ranks threads_per_rank : Z)
    (seed : value) (config : loc) (w : world) (d : dict) :
  heap w !! config = Some d ->
  let w' := snd (BaseRunner.make_cmd_for_config self suite i config_job_name
                   config_index mpi_ranks threads_per_rank seed config w) in
  let d1 := if BaseRunner.omit_json_output_path self then d
            else dict_set "json_output_path"
                   (VStr (path_join (BaseRunner.output_directory self)
                            (config_job_name +:+ "_timer.json"))) d in
  let d2 := if BaseRunner.omit_seed self then d1 else dict_set "seed" seed d1 in
  heap w' !! config = Some d /\
  (forall l, is_Some (heap w !! l) -> heap w' !! l = heap w !! l) /\
  (forall l, heap w !! l = None -> is_Some (heap w' !! l) ->
             l = fresh (dom (heap w))) /\
  heap w' !! fresh (dom (heap w)) = Some d2.
Proof.
  intros Hd w' d1 d2.
  pose proof (make_cmd_for_config_heap self suite i config_job_name config_index
                mpi_ranks threads_per_rank seed config w d Hd) as Hheap.
  cbv zeta in Hheap. fold w' d1 d2 in Hheap. rewrite Hheap.
  assert (Hfresh : forall l, is_Some (heap w !! l) -> fresh (dom (heap w)) <> l).
  { intros l Hl E. apply elem_of_dom in Hl. rewrite <- E in Hl.
    exact (is_fresh _ Hl). }
  split; [|split; [|split]].
  - rewrite lookup_insert_ne; [exact Hd|]. apply Hfresh. now exists d.
  - intros l Hl. rewrite lookup_insert_ne; [reflexivity|]. now apply Hfresh.
  - intros l Hnone Hsome.
    destruct (decide (fresh (dom (heap w)) = l)) as [E|E]; [now symmetry|].
    rewrite lookup_insert_ne in Hsome by exact E.
    rewrite Hnone in Hsome. now destruct Hsome.
  - apply lookup_insert_eq.
Qed.
End MakeCmdFrame.

Lemma make_cmd_for_config_frame_witness :
  let self := BaseRunner.Build "out" false false in
  let suite := ExperimentSuite.Build "suite" (Some "bench") [4] [1]
                 [InputOther (VStr "web")] [1%positive] None [VInt 0] in
  let d := [("verbose", VBool true); ("k", VInt 3)] in
  let w := World {[ 1%positive := d ]} [] in
  let call := BaseRunner.make_cmd_for_config (H := example_platform) self suite
                (InputOther (VStr "web")) "web-np4-t1-c0-s0" 0 4 1 (VInt 0)
                1%positive w in
  fst call = Returns ["../build/bench"; "web"; "--verbose"; "-k"; "3";
                      "--json_output_path"; "out/web-np4-t1-c0-s0_timer.json";
                      "--seed"; "0"] /\
  heap (snd call) !! 1%positive = Some d.
Proof.
  intros self suite d w call. split; [vm_compute; reflexivity|].
  assert (Hd : heap w !! 1%positive = Some d) by reflexivity.
  exact (proj1 (make_cmd_for_config_frame (H := example_platform) self suite
                  (InputOther (VStr "web")) "web-np4-t1-c0-s0" 0 4 1 (VInt 0)
                  1%positive w d Hd)).
Defined.

(* ================================================================= *)
(** ** SBatchRunner.required_nodes *)

(** [required_nodes] divides in binary64.  The lemmas below follow the
    division through [SpecFloat]: an integer below [2^53] converts exactly,
    to a float whose mantissa has all 53 bits; the quotient of two such
    mantissas has 53 or 54 bits before rounding; and rounding it to the
    nearest float cannot carry it across an integer that the exact quotient
    has not reached. *)

(** *** Bit lengths *)
Lemma digits2_pos_bounds (p : positive) :
  2 ^ (Z.pos (digits2_pos p) - 1) <= Z.pos p < 2 ^ Z.pos (digits2_pos p).
Proof.
  induction p as [p IH|p IH|]; simpl digits2_pos.
  - rewrite Pos2Z.inj_succ. replace (Z.succ (Z.pos (digits2_pos p)) - 1) with (Z.succ (Z.pos (digits2_pos p) - 1)) by lia.
    rewrite !Z.pow_succ_r by lia. rewrite (Pos2Z.inj_xI p).
    generalize dependent (2 ^ (Z.pos (digits2_pos p) - 1)). generalize (2 ^ Z.pos (digits2_pos p)). intros. lia.
  - rewrite Pos2Z.inj_succ. replace (Z.succ (Z.pos (digits2_pos p)) - 1) with (Z.succ (Z.pos (digits2_pos p) - 1)) by lia.
    rewrite !Z.pow_succ_r by lia. rewrite (Pos2Z.inj_xO p).
    generalize dependent (2 ^ (Z.pos (digits2_pos p) - 1)). generalize (2 ^ Z.pos (digits2_pos p)). intros; lia.
  - simpl. lia.
Qed.

Lemma digits2_pos_unique (p : positive) (n : Z) :
  2 ^ (n - 1) <= Z.pos p < 2 ^ n -> Z.pos (digits2_pos p) = n.
Proof.
  intros [Hlo Hhi]. pose proof (digits2_pos_bounds p) as [Dlo Dhi].
  assert (Hn : 0 < n).
  { destruct (Z.ltb_spec 0 n) as [|Hle]; [assumption|]. exfalso.
    assert (2 ^ n <= 1).
    { destruct (Z.eq_dec n 0) as [->|]; [simpl; lia|].
      rewrite Z.pow_neg_r by lia. lia. }
    lia. }
  destruct (Z.lt_trichotomy (Z.pos (digits2_pos p)) n) as [H|[H|H]]; [|exact H|].
  - exfalso. assert (2 ^ Z.pos (digits2_pos p) <= 2 ^ (n - 1)) by (apply Z.pow_le_mono_r; lia). lia.
  - exfalso. assert (2 ^ n <= 2 ^ (Z.pos (digits2_pos p) - 1)) by (apply Z.pow_le_mono_r; lia). lia.
Qed.

(** *** Shifting and rounding a mantissa *)

Lemma Zdigits2_53 m : 2 ^ 52 <= m < 2 ^ 53 -> Zdigits2 m = 53.
Proof.
  intros H. destruct m as [|p|p]; try lia.
  simpl. apply digits2_pos_unique. exact H.
Qed.

Lemma Zdigits2_54 m : 2 ^ 53 <= m < 2 ^ 54 -> Zdigits2 m = 54.
Proof.
  intros H. destruct m as [|p|p]; try lia.
  simpl. apply digits2_pos_unique. exact H.
Qed.

Lemma fexp_normal n : -1021 <= n -> fexp prec emax n = n - 53.
Proof. intros H. unfold fexp, emin, prec, emax. lia. Qed.

Lemma shr_fexp_53 m e l :
  2 ^ 52 <= m < 2 ^ 53 -> -1074 <= e ->
  shr_fexp prec emax m e l = (shr_record_of_loc m l, e).
Proof.
  intros Hm He. unfold shr_fexp. rewrite (Zdigits2_53 m Hm).
  rewrite fexp_normal by lia.
  replace (53 + e - 53 - e) with 0 by lia. reflexivity.
Qed.

Lemma shr_fexp_54 m e l :
  2 ^ 53 <= m < 2 ^ 54 -> -1075 <= e ->
  shr_fexp prec emax m e l = (shr_1 (shr_record_of_loc m l), e + 1).
Proof.
  intros Hm He. unfold shr_fexp. rewrite (Zdigits2_54 m Hm).
  rewrite fexp_normal by lia.
  replace (54 + e - 53 - e) with 1 by lia. reflexivity.
Qed.

Lemma loc_of_shr_record_of_loc m l :
  loc_of_shr_record (shr_record_of_loc m l) = l /\
  shr_m (shr_record_of_loc m l) = m.
Proof. destruct l as [|[]]; split; reflexivity. Qed.

Lemma round_nearest_even_bounds m l :
  m <= round_nearest_even m l <= m + 1.
Proof.
  destruct l as [|[]]; simpl; try lia. destruct (Z.even m); lia.
Qed.

(** Rounding a mantissa of 53 bits that comes with a location. *)
Lemma binary_round_aux_53 q e l :
  2 ^ 52 <= q < 2 ^ 53 -> -1074 <= e <= 970 ->
  binary_round_aux prec emax false q e l =
  normal_float (round_nearest_even q l) e.
Proof.
  intros Hq He. unfold binary_round_aux.
  rewrite shr_fexp_53 by lia.
  destruct (loc_of_shr_record_of_loc q l) as [-> ->].
  pose proof (round_nearest_even_bounds q l) as HM.
  set (M := round_nearest_even q l) in *.
  unfold normal_float.
  destruct (Z.ltb_spec M (2 ^ 53)) as [Hlt|Hge].
  - rewrite shr_fexp_53 by lia. simpl shr_m.
    destruct M as [|p|p]; try lia.
    unfold prec, emax. destruct (Z.leb_spec e (1024 - 53)); [reflexivity|lia].
  - assert (HM53 : M = 2 ^ 53) by lia. rewrite HM53.
    rewrite shr_fexp_54 by lia.
    change (shr_m (shr_1 (shr_record_of_loc (2 ^ 53) loc_Exact))) with (2 ^ 52).
    change (2 ^ 52) with (Z.pos (Z.to_pos (2 ^ 52))).
    unfold prec, emax. destruct (Z.leb_spec (e + 1) (1024 - 53)); [reflexivity|lia].
Qed.

(** *** From locations to arithmetic *)

Lemma div_eucl_div_mod a b : Z.div_eucl a b = (a / b, a mod b).
Proof. unfold Z.div, Z.modulo. now destruct (Z.div_eucl a b). Qed.

Lemma new_location_spec b r :
  0 < b -> 0 <= r < b ->
  new_location b r =
  if r =? 0 then loc_Exact else loc_Inexact (2 * r ?= b).
Proof.
  intros Hb Hr. unfold new_location.
  destruct (Z.even b) eqn:Eb.
  - reflexivity.
  - unfold new_location_odd. destruct (r =? 0); [reflexivity|].
    f_equal.
    assert (Hodd : Z.odd b = true) by (rewrite <- Z.negb_even, Eb; reflexivity).
    apply Z.odd_spec in Hodd as [k Hk].
    destruct (Z.compare_spec (2 * r + 1) b), (Z.compare_spec (2 * r) b);
      try reflexivity; lia.
Qed.

Lemma round_location_53 a b :
  0 <= a -> 0 < b ->
  round_nearest_even (a / b) (new_location b (a mod b)) = round_half_even a b.
Proof.
  intros Ha Hb.
  pose proof (Z.mod_pos_bound a b Hb) as Hr.
  rewrite new_location_spec by assumption.
  unfold round_half_even.
  destruct (Z.eqb_spec (a mod b) 0) as [E|E].
  - rewrite E. change (2 * 0) with 0.
    destruct (Z.ltb_spec b 0), (Z.eqb_spec 0 b); try lia. reflexivity.
  - destruct (Z.compare_spec (2 * (a mod b)) b), (Z.ltb_spec b (2 * (a mod b))),
      (Z.eqb_spec (2 * (a mod b)) b); try lia; simpl; try reflexivity.
    rewrite <- Z.negb_odd. now destruct (Z.odd (a / b)).
Qed.

Lemma round_location_54 a b :
  0 <= a -> 0 < b -> 2 <= a / b ->
  let mrs := shr_1 (shr_record_of_loc (a / b) (new_location b (a mod b))) in
  shr_m mrs = a / (2 * b) /\
  round_nearest_even (shr_m mrs) (loc_of_shr_record mrs) = round_half_even a (2 * b).
Proof.
  intros Ha Hb Hq.
  pose proof (Z.mod_pos_bound a b Hb) as Hr.
  rewrite new_location_spec by assumption.
  assert (Hdiv : a / (2 * b) = a / b / 2)
    by (rewrite (Z.mul_comm 2 b), Z.div_div by lia; reflexivity).
  assert (Hmod : a mod (2 * b) = a mod b + b * ((a / b) mod 2))
    by (rewrite (Z.mul_comm 2 b); apply Z.rem_mul_r; lia).
  unfold round_half_even. rewrite Hmod, Hdiv.
  set (q := a / b) in *. set (r := a mod b) in *.
  assert (Hq2 : q = 2 * (q / 2) + q mod 2) by (apply Z.div_mod; lia).
  pose proof (Z.mod_pos_bound q 2 ltac:(lia)) as Hb2.
  destruct q as [|[p|p|]|]; try lia.
  - (* odd mantissa *)
    assert (E2 : Z.pos p~1 / 2 = Z.pos p) by (rewrite (Pos2Z.inj_xI p) in *; lia).
    assert (E1 : Z.pos p~1 mod 2 = 1) by (rewrite (Pos2Z.inj_xI p) in *; lia).
    rewrite E1, E2.
    destruct (Z.eqb_spec r 0) as [E|E].
    + simpl. split; [reflexivity|].
      destruct (Z.ltb_spec (2 * b) (2 * (r + b * 1))),
        (Z.eqb_spec (2 * (r + b * 1)) (2 * b)); try lia. simpl.
      now destruct p.
    + destruct (2 * r ?= b); simpl; (split; [reflexivity|]);
        destruct (Z.ltb_spec (2 * b) (2 * (r + b * 1))); try lia; reflexivity.
  - (* even mantissa *)
    assert (E2 : Z.pos p~0 / 2 = Z.pos p) by (rewrite (Pos2Z.inj_xO p) in *; lia).
    assert (E1 : Z.pos p~0 mod 2 = 0) by (rewrite (Pos2Z.inj_xO p) in *; lia).
    rewrite E1, E2.
    destruct (Z.eqb_spec r 0) as [E|E].
    + simpl. split; [reflexivity|].
      destruct (Z.ltb_spec (2 * b) (2 * (r + b * 0))),
        (Z.eqb_spec (2 * (r + b * 0)) (2 * b)); try lia. reflexivity.
    + destruct (2 * r ?= b); simpl; (split; [reflexivity|]);
        destruct (Z.ltb_spec (2 * b) (2 * (r + b * 0))),
          (Z.eqb_spec (2 * (r + b * 0)) (2 * b)); try lia; reflexivity.
Qed.

(** Division of two positive floats with full mantissas: the quotient of
    the mantissas, scaled by [2^53], is rounded to 53 bits. *)
Lemma SFdiv_normal (m1 m2 : positive) (e1 e2 : Z) :
  2 ^ 52 <= Z.pos m1 < 2 ^ 53 -> 2 ^ 52 <= Z.pos m2 < 2 ^ 53 ->
  -52 <= e1 <= 0 -> -52 <= e2 <= 0 ->
  let a := Z.pos m1 * 2 ^ 53 in
  let b := Z.pos m2 in
  SFdiv prec emax (S754_finite false m1 e1) (S754_finite false m2 e2) =
  if a / b <? 2 ^ 53
  then normal_float (round_half_even a b) (e1 - e2 - 53)
  else normal_float (round_half_even a (2 * b)) (e1 - e2 - 53 + 1).
Proof.
  intros Hm1 Hm2 He1 He2 a b.
  unfold SFdiv, SFdiv_core_binary.
  rewrite (Zdigits2_53 (Z.pos m1) Hm1), (Zdigits2_53 (Z.pos m2) Hm2).
  rewrite fexp_normal by lia.
  replace (Z.min (53 + e1 - (53 + e2) - 53) (e1 - e2)) with (e1 - e2 - 53) by lia.
  replace (e1 - e2 - (e1 - e2 - 53)) with 53 by lia.
  cbv iota beta.
  rewrite Z.shiftl_mul_pow2 by lia. fold a. fold b.
  rewrite div_eucl_div_mod.
  assert (Ha : 0 <= a) by (unfold a; lia).
  assert (Hb : 0 < b) by (unfold b; lia).
  assert (Hq : 2 ^ 52 <= a / b < 2 ^ 54).
  { split.
    - apply Z.div_le_lower_bound; [exact Hb|]. unfold a, b.
      change (2 ^ 53) with (2 * 2 ^ 52) in *. nia.
    - apply Z.div_lt_upper_bound; [exact Hb|]. unfold a, b.
      change (2 ^ 54) with (2 * 2 ^ 53). change (2 ^ 53) with (2 * 2 ^ 52) in *. nia. }
  change (xorb false false) with false.
  destruct (Z.ltb_spec (a / b) (2 ^ 53)) as [Hlt|Hge].
  - rewrite binary_round_aux_53 by lia.
    now rewrite round_location_53.
  - unfold binary_round_aux. rewrite shr_fexp_54 by lia.
    destruct (round_location_54 a b Ha Hb ltac:(lia)) as [Hm Hround].
    cbv zeta in Hm, Hround. rewrite Hround.
    assert (Hq2 : 2 ^ 52 <= a / (2 * b) < 2 ^ 53).
    { rewrite (Z.mul_comm 2 b), <- Z.div_div by lia. split.
      - apply Z.div_le_lower_bound; lia.
      - apply Z.div_lt_upper_bound; lia. }
    pose proof (Z.mod_pos_bound a (2 * b) ltac:(lia)) as Hr.
    assert (HM : a / (2 * b) <= round_half_even a (2 * b) <= a / (2 * b) + 1).
    { unfold round_half_even. destruct (_ || _); lia. }
    set (M := round_half_even a (2 * b)) in *.
    unfold normal_float.
    destruct (Z.ltb_spec M (2 ^ 53)) as [Hlt|HgeM].
    + rewrite shr_fexp_53 by lia. simpl shr_m.
      destruct M as [|p|p]; try lia.
      unfold prec, emax.
      destruct (Z.leb_spec (e1 - e2 - 53 + 1) (1024 - 53)); [reflexivity|lia].
    + assert (HM53 : M = 2 ^ 53) by lia. rewrite HM53.
      rewrite shr_fexp_54 by lia.
      change (shr_m (shr_1 (shr_record_of_loc (2 ^ 53) loc_Exact))) with (2 ^ 52).
      change (2 ^ 52) with (Z.pos (Z.to_pos (2 ^ 52))).
      unfold prec, emax.
      destruct (Z.leb_spec (e1 - e2 - 53 + 1 + 1) (1024 - 53)); [reflexivity|lia].
Qed.

(** *** Conversion and division *)

Lemma iter_xO_pow2 (p n : positive) :
  Z.pos (Pos.iter xO p n) = Z.pos p * 2 ^ Z.pos n.
Proof.
  induction n as [|n IH] using Pos.peano_ind.
  - simpl. lia.
  - rewrite Pos.iter_succ, Pos2Z.inj_succ, Z.pow_succ_r by lia.
    rewrite (Pos2Z.inj_xO (Pos.iter xO p n)), IH. lia.
Qed.

(** An integer below [2^53] converts exactly, to a float with a full
    mantissa. *)
Lemma float_of_int_normal (c : Z) :
  0 < c < 2 ^ 53 ->
  exists m e,
    float_of_int c = Returns (S754_finite false m e) /\
    2 ^ 52 <= Z.pos m < 2 ^ 53 /\ -52 <= e <= 0 /\
    Z.pos m = c * 2 ^ (- e).
Proof.
  intros Hc. destruct c as [|p|p]; try lia.
  pose proof (digits2_pos_bounds p) as Hd.
  set (d := Z.pos (digits2_pos p)) in *.
  assert (Hd53 : 1 <= d <= 53).
  { split; [unfold d; lia|].
    destruct (Z.leb_spec d 53) as [|Hgt]; [assumption|]. exfalso.
    assert (2 ^ 53 <= 2 ^ (d - 1)) by (apply Z.pow_le_mono_r; lia). lia. }
  unfold float_of_int, binary_normalize, binary_round.
  fold d. rewrite Z.add_0_r, fexp_normal by lia.
  unfold shl_align.
  assert (Hnormal : forall mz : positive,
            Z.pos mz = Z.pos p * 2 ^ (53 - d) ->
            2 ^ 52 <= Z.pos mz < 2 ^ 53).
  { intros mz ->.
    assert (E52 : 2 ^ 52 = 2 ^ (d - 1) * 2 ^ (53 - d))
      by (rewrite <- Z.pow_add_r by lia; f_equal; lia).
    assert (E53 : 2 ^ 53 = 2 ^ d * 2 ^ (53 - d))
      by (rewrite <- Z.pow_add_r by lia; f_equal; lia).
    assert (0 < 2 ^ (53 - d)) by (apply Z.pow_pos_nonneg; lia).
    rewrite E52, E53. split.
    - apply Z.mul_le_mono_nonneg_r; lia.
    - apply Z.mul_lt_mono_pos_r; lia. }
  assert (Hround : forall mz : positive,
            Z.pos mz = Z.pos p * 2 ^ (53 - d) ->
            binary_round_aux prec emax false (Z.pos mz) (d - 53) loc_Exact =
            S754_finite false mz (d - 53)).
  { intros mz Hmz. pose proof (Hnormal mz Hmz).
    rewrite binary_round_aux_53 by lia. unfold normal_float. simpl round_nearest_even.
    destruct (Z.ltb_spec (Z.pos mz) (2 ^ 53)); [reflexivity|lia]. }
  destruct (d - 53 - 0) as [|n|n] eqn:Hshift; try lia.
  - assert (Hmz : Z.pos p = Z.pos p * 2 ^ (53 - d))
      by (replace (53 - d) with 0 by lia; lia).
    assert (E0 : d - 53 = 0) by lia. rewrite E0 in Hround.
    rewrite (Hround p Hmz). rewrite <- E0.
    exists p, (d - 53). repeat split; try lia; try (apply Hnormal; exact Hmz).
    now replace (- (d - 53)) with (53 - d) by lia.
  - assert (Hmz : Z.pos (Pos.iter xO p n) = Z.pos p * 2 ^ (53 - d))
      by (rewrite iter_xO_pow2; f_equal; f_equal; lia).
    rewrite (Hround _ Hmz).
    exists (Pos.iter xO p n), (d - 53).
    repeat split; try lia; try (apply Hnormal; exact Hmz).
    now replace (- (d - 53)) with (53 - d) by lia.
Qed.

(** *** The ceiling of the rounded quotient *)

Lemma round_half_even_scale a d k :
  0 < d -> 0 < k -> round_half_even (a * k) (d * k) = round_half_even a d.
Proof.
  intros Hd Hk. unfold round_half_even.
  rewrite Z.div_mul_cancel_r by lia.
  rewrite Z.mul_mod_distr_r by lia.
  replace (2 * (a mod d * k)) with (2 * (a mod d) * k) by ring.
  destruct (Z.ltb_spec (d * k) (2 * (a mod d) * k)),
    (Z.ltb_spec d (2 * (a mod d))); try nia;
  destruct (Z.eqb_spec (2 * (a mod d) * k) (d * k)),
    (Z.eqb_spec (2 * (a mod d)) d); try nia; reflexivity.
Qed.

Lemma round_half_even_bounds a d :
  0 < d -> a / d <= round_half_even a d <= a / d + 1.
Proof. intros Hd. unfold round_half_even. destruct (_ || _); lia. Qed.

(** Rounding [c * g / t] to the nearest integer keeps it on the same side of
    the multiples of [g] as [c / t], when the quotient fills 53 bits and [c]
    fits into them. *)
Lemma round_half_even_ceil c t g :
  0 < c < 2 ^ 53 -> 0 < t -> 0 < g -> 2 ^ 52 <= c * g / t ->
  let nodes := (c + t - 1) / t in
  (nodes - 1) * g < round_half_even (c * g) t <= nodes * g /\
  (nodes - 1) * t < c <= nodes * t.
Proof.
  intros Hc Ht Hg HT nodes.
  assert (Hnodes : (nodes - 1) * t < c <= nodes * t).
  { pose proof (Z.div_mod (c + t - 1) t ltac:(lia)) as E.
    pose proof (Z.mod_pos_bound (c + t - 1) t Ht) as B.
    fold nodes in E. nia. }
  split; [|exact Hnodes].
  pose proof (Z.div_mod (c * g) t ltac:(lia)) as E.
  pose proof (Z.mod_pos_bound (c * g) t Ht) as B.
  unfold round_half_even.
  set (T := c * g / t) in *. set (R := (c * g) mod t) in *.
  assert (Hup : T <= nodes * g).
  { assert (t * T <= t * (nodes * g)) by nia. nia. }
  assert (Hlo : (nodes - 1) * g <= T).
  { assert (t * ((nodes - 1) * g) < t * (T + 1)) by nia. nia. }
  destruct (Z.eq_dec T (nodes * g)) as [Etop|Ntop].
  - assert (R = 0) by nia.
    destruct (Z.ltb_spec t (2 * R)), (Z.eqb_spec (2 * R) t); try lia. simpl. nia.
  - destruct (Z.eq_dec T ((nodes - 1) * g)) as [Ebot|Nbot].
    + assert (HR : g <= R) by nia.
      assert (Htg : t < 2 * g).
      { assert (0 < nodes - 1) by nia.
        assert ((nodes - 1) * t < (nodes - 1) * (2 * g)) by nia. nia. }
      destruct (Z.ltb_spec t (2 * R)); [|lia]. simpl. nia.
    + destruct (_ || _); nia.
Qed.

Lemma neg_div_ceil m d n :
  0 < d -> (n - 1) * d < m <= n * d -> - ((- m) / d) = n.
Proof.
  intros Hd H.
  rewrite <- (Z.div_unique (- m) d (- n) (n * d - m)); lia.
Qed.

(** [math.ceil] of a positive float given by mantissa and exponent. *)
Lemma math_ceil_normal m g n :
  2 ^ 52 <= m <= 2 ^ 53 -> 0 <= g -> n < 2 ^ 53 ->
  (n - 1) * 2 ^ g < m <= n * 2 ^ g ->
  math_ceil (normal_float m (- g)) = Returns n.
Proof.
  intros Hm Hg Hn H. unfold normal_float.
  destruct (Z.ltb_spec m (2 ^ 53)) as [Hlt|Hge].
  - unfold math_ceil. rewrite Z2Pos.id by lia. f_equal.
    destruct g as [|gp|gp]; try lia.
    + change (- 0) with 0. cbv iota. change (2 ^ 0) with 1 in *. lia.
    + change (- Z.pos gp) with (Z.neg gp). cbv iota.
      apply neg_div_ceil; [apply Z.pow_pos_nonneg; lia|exact H].
  - assert (m = 2 ^ 53) by lia. subst m.
    assert (Hg1 : 1 <= g).
    { destruct (Z.eq_dec g 0) as [->|]; [|lia]. change (2 ^ 0) with 1 in H. lia. }
    assert (Hpow : 2 ^ g = 2 * 2 ^ (g - 1)).
    { rewrite <- Z.pow_succ_r by lia. f_equal. lia. }
    assert (H' : (n - 1) * 2 ^ (g - 1) < 2 ^ 52 <= n * 2 ^ (g - 1)).
    { rewrite Hpow in H. change (2 ^ 53) with (2 * 2 ^ 52) in H. lia. }
    unfold math_ceil. rewrite Z2Pos.id by lia. f_equal.
    replace (- g + 1) with (- (g - 1)) by lia.
    destruct (g - 1) as [|gp|gp] eqn:Eg; try lia.
    + change (- 0) with 0. cbv iota. change (2 ^ 0) with 1 in *. lia.
    + change (- Z.pos gp) with (Z.neg gp). cbv iota.
      apply neg_div_ceil; [apply Z.pow_pos_nonneg; lia|exact H'].
Qed.

(** The quotient of two integers below [2^53], as [required_nodes] computes
    it. *)
Lemma float_quotient (c t : Z) :
  0 < c < 2 ^ 53 -> 0 < t < 2 ^ 53 ->
  exists x y g,
    float_of_int c = Returns x /\ float_of_int t = Returns y /\
    float_truediv x y = Returns (normal_float (round_half_even (c * 2 ^ g) t) (- g)) /\
    0 <= g /\ 2 ^ 52 <= c * 2 ^ g / t < 2 ^ 53.
Proof.
  intros Hc Ht.
  destruct (float_of_int_normal c Hc) as (m1 & e1 & Hx & Hm1 & He1 & Ec).
  destruct (float_of_int_normal t Ht) as (m2 & e2 & Hy & Hm2 & He2 & Et).
  exists (S754_finite false m1 e1), (S754_finite false m2 e2).
  pose proof (SFdiv_normal m1 m2 e1 e2 Hm1 Hm2 He1 He2) as Hdiv.
  cbv zeta in Hdiv. unfold float_truediv. rewrite Hdiv. clear Hdiv.
  assert (Hs : 0 < 2 ^ (- e2)) by (apply Z.pow_pos_nonneg; lia).
  assert (Hq : 2 ^ 52 <= Z.pos m1 * 2 ^ 53 / Z.pos m2 < 2 ^ 54).
  { split.
    - apply Z.div_le_lower_bound; [lia|].
      change (2 ^ 53) with (2 * 2 ^ 52) in *. nia.
    - apply Z.div_lt_upper_bound; [lia|].
      change (2 ^ 54) with (2 * 2 ^ 53). change (2 ^ 53) with (2 * 2 ^ 52) in *. nia. }
  destruct (Z.ltb_spec (Z.pos m1 * 2 ^ 53 / Z.pos m2) (2 ^ 53)) as [Hlt|Hge].
  - exists (53 - e1 + e2).
    assert (Ea : Z.pos m1 * 2 ^ 53 = c * 2 ^ (53 - e1 + e2) * 2 ^ (- e2)).
    { rewrite Ec, <- !Z.mul_assoc, <- !Z.pow_add_r by lia.
      f_equal. f_equal. lia. }
    rewrite Ea, Et in *.
    rewrite round_half_even_scale by lia.
    rewrite Z.div_mul_cancel_r in Hq, Hlt by lia.
    replace (e1 - e2 - 53) with (- (53 - e1 + e2)) by lia.
    repeat split; try reflexivity; try lia; assumption.
  - exists (52 - e1 + e2).
    assert (Ea : Z.pos m1 * 2 ^ 53 = c * 2 ^ (52 - e1 + e2) * (2 * 2 ^ (- e2))).
    { rewrite Ec. rewrite <- (Z.pow_succ_r 2 (- e2)) by lia.
      rewrite <- !Z.mul_assoc, <- !Z.pow_add_r by lia.
      f_equal. f_equal. lia. }
    assert (Eb : 2 * Z.pos m2 = t * (2 * 2 ^ (- e2))) by (rewrite Et; ring).
    assert (Hq2 : 2 ^ 52 <= Z.pos m1 * 2 ^ 53 / (2 * Z.pos m2) < 2 ^ 53).
    { rewrite (Z.mul_comm 2 (Z.pos m2)), <- Z.div_div by lia. split.
      - apply Z.div_le_lower_bound; lia.
      - apply Z.div_lt_upper_bound; lia. }
    rewrite Eb, Ea in *.
    rewrite round_half_even_scale by lia.
    rewrite Z.div_mul_cancel_r in Hq2 by lia.
    replace (e1 - e2 - 53 + 1) with (- (52 - e1 + e2)) by lia.
    repeat split; try reflexivity; try lia; assumption.
Qed.




(* ================================================================= *)
(** * Further properties *)

(** ** explode, on every configuration *)

(** Induction along the recursion of [explode]: a result is the
    configuration itself, when it has no list or its first list is empty,
    or a result for the configuration with its first list replaced by one
    of the elements. *)
Lemma explode_results_ind (P : dict -> dict -> Prop) :
  (forall config, first_list config = None -> P config config) ->
  (forall config flag, first_list config = Some (flag, []) -> P config config) ->
  (forall config flag args arg d,
     dict_wf config -> first_list config = Some (flag, args) -> In arg args ->
     In d (explode (dict_set flag arg config)) ->
     P (dict_set flag arg config) d -> P config d) ->
  forall config, dict_wf config ->
  forall d, In d (explode config) -> P config d.
Proof.
  intros Hnone Hempty Hstep config.
  remember (dict_weight config) as n eqn:Hn.
  revert config Hn.
  induction n as [n IH] using lt_wf_ind. intros config Hn Hwf d.
  rewrite explode_unfold by exact Hwf.
  destruct (first_list config) as [[flag args]|] eqn:Hf.
  - destruct args as [|a args].
    + simpl. intros [<-|[]]. now apply (Hempty config flag).
    + assert (Hin : forall d', In d' (flat_map (fun arg => explode (dict_set flag arg config)) (a :: args)) ->
                               P config d').
      { intros d' Hd'. apply in_flat_map in Hd' as (arg & Harg & Hd').
        destruct (explode_set_smaller config flag (a :: args) arg Hwf Hf Harg)
          as [Hwf' Hlt].
        apply (Hstep config flag (a :: args) arg d' Hwf Hf Harg Hd').
        apply (IH (dict_weight (dict_set flag arg config))); auto. lia. }
      destruct (flat_map _ (a :: args)) as [|c cs] eqn:Hfm.
      * exfalso. simpl in Hfm. apply app_eq_nil in Hfm as [Ha _].
        destruct (explode_set_smaller config flag (a :: args) a Hwf Hf (or_introl eq_refl))
          as [Hwf' _].
        destruct (explode_total _ Hwf') as (r & Hr & _ & E). congruence.
      * exact (Hin d).
  - intros [<-|[]]. now apply Hnone.
Qed.

(** X1.  [explode] terminates on every dictionary: any recursion depth above
    the number of lists in the configuration, nested ones counted, gives the
    same result, and the result is never the empty sequence. *)
Theorem explode_terminates (config : dict) (fuel : nat) :
  dict_wf config -> (dict_weight config < fuel)%nat ->
  explode_fuel fuel config = Some (explode config) /\ explode config <> [].
Proof.
  intros Hwf Hlt. split; [now apply explode_fuel_explode|].
  destruct (explode_total config Hwf) as (r & Hr & _ & E). congruence.
Qed.

Lemma explode_terminates_witness :
  let config := [("a", VList [VList [VInt 1; VInt 2]; VInt 3]); ("b", VList [])] in
  explode_fuel 10 config = Some (explode config) /\ explode config <> [].
Proof.
  intros config. apply explode_terminates.
  - unfold dict_wf, config. simpl. distinct.
  - vm_compute. lia.
Defined.

Lemma explode_result_keys (config d : dict) :
  dict_wf config -> In d (explode config) -> map fst d = map fst config.
Proof.
  intros Hwf Hd. revert config Hwf d Hd.
  apply (explode_results_ind (fun config d => map fst d = map fst config)); auto.
  intros config flag args arg d Hwf Hf Harg _ ->.
  apply dict_set_keys. apply first_list_In in Hf.
  change flag with (fst (flag, VList args)). now apply in_map.
Qed.

Lemma explode_result_first_list (config d : dict) :
  dict_wf config -> In d (explode config) ->
  first_list d = None \/ exists flag, first_list d = Some (flag, []).
Proof.
  intros Hwf Hd. revert config Hwf d Hd.
  apply (explode_results_ind
           (fun _ d => first_list d = None \/
                       exists flag, first_list d = Some (flag, []))); eauto.
Qed.

(** X2.  Every configuration [explode] produces has the fields of the
    original, in the original order; this holds for nested and for empty
    lists too. *)
Theorem explode_keeps_fields (config d : dict) :
  dict_wf config -> In d (explode config) ->
  map fst d = map fst config /\ dict_wf d.
Proof.
  intros Hwf Hd. pose proof (explode_result_keys config d Hwf Hd) as Hk.
  split; [exact Hk|]. unfold dict_wf. now rewrite Hk.
Qed.

Lemma explode_keeps_fields_witness :
  let config := [("a", VList [VList [VInt 1; VInt 2]; VInt 3]); ("b", VStr "x")] in
  map fst [("a", VInt 2); ("b", VStr "x")] = map fst config.
Proof.
  intros config.
  refine (proj1 (explode_keeps_fields config [("a", VInt 2); ("b", VStr "x")] _ _)).
  - unfold dict_wf, config. simpl. distinct.
  - vm_compute. tauto.
Defined.

(** X3.  A configuration [explode] produces is fully scalar, or the first
    of its list-valued fields is an empty list: an empty list is the one
    way a list gets through. *)
Theorem explode_results_settled (config d : dict) :
  dict_wf config -> In d (explode config) ->
  first_list d = None \/ exists flag, first_list d = Some (flag, []).
Proof.
  exact (explode_result_first_list config d).
Qed.

Lemma explode_results_settled_witness :
  let config := [("a", VList [VInt 1; VInt 2]); ("b", VList [])] in
  let d := [("a", VInt 1); ("b", VList [])] in
  In d (explode config) /\
  (first_list d = None \/ exists flag, first_list d = Some (flag, [])).
Proof.
  intros config d.
  assert (Hin : In d (explode config)) by (vm_compute; tauto).
  split; [exact Hin|].
  apply (explode_results_settled config d); [|exact Hin].
  unfold dict_wf, config. simpl. distinct.
Defined.

(** X4.  Exploding a configuration that [explode] produced gives that
    configuration alone. *)
Theorem explode_idempotent (config d : dict) :
  dict_wf config -> In d (explode config) -> explode d = [d].
Proof.
  intros Hwf Hd.
  assert (Hwfd : dict_wf d)
    by (unfold dict_wf; now rewrite (explode_result_keys config d Hwf Hd)).
  rewrite explode_unfold by exact Hwfd.
  destruct (explode_result_first_list config d Hwf Hd) as [->|[flag ->]];
    reflexivity.
Qed.

Lemma explode_idempotent_witness :
  explode [("a", VInt 1); ("b", VList [])] = [[("a", VInt 1); ("b", VList [])]].
Proof.
  apply (explode_idempotent [("a", VList [VInt 1; VInt 2]); ("b", VList [])]).
  - unfold dict_wf. simpl. distinct.
  - vm_compute. tauto.
Defined.

Lemma first_list_split config flag args :
  first_list config = Some (flag, args) ->
  exists pre post,
    config = pre ++ (flag, VList args) :: post /\ first_list pre = None.
Proof.
  induction config as [|[k v] config IH]; simpl; [discriminate|].
  intros H.
  assert (Hrec : first_list config = Some (flag, args) ->
                 type_is_list v = false ->
                 exists pre post,
                   (k, v) :: config = pre ++ (flag, VList args) :: post /\
                   first_list pre = None).
  { intros Hc Hv. destruct (IH Hc) as (pre & post & -> & Hpre).
    exists ((k, v) :: pre), post. split; [reflexivity|].
    simpl. destruct v; try exact Hpre; discriminate. }
  destruct v; try (now apply Hrec).
  inversion H; subst. exists [], config. split; reflexivity.
Qed.

Lemma first_list_none_leaves pre :
  first_list pre = None -> config_leaves pre = 1%nat.
Proof.
  unfold config_leaves.
  induction pre as [|[k v] pre IH]; simpl; [reflexivity|].
  destruct v; try discriminate; intros H; rewrite (IH H); reflexivity.
Qed.

Lemma config_leaves_app c1 c2 :
  config_leaves (c1 ++ c2) = (config_leaves c1 * config_leaves c2)%nat.
Proof.
  unfold config_leaves, product.
  induction c1 as [|kv c1 IH]; simpl; [lia|]. rewrite IH. lia.
Qed.

Lemma list_sum_scale {A} (f : A -> nat) (k : nat) (l : list A) :
  list_sum (map (fun a => (f a * k)%nat) l) = (list_sum (map f l) * k)%nat.
Proof. induction l as [|a l IH]; simpl; [reflexivity|]. rewrite IH. lia. Qed.

Lemma length_flat_map_sum {A B} (f : A -> list B) (l : list A) :
  List.length (flat_map f l) = list_sum (map (fun a => List.length (f a)) l).
Proof.
  induction l as [|a l IH]; simpl; [reflexivity|].
  now rewrite length_app, IH.
Qed.

Lemma map_ext_In {A B} (f g : A -> B) (l : list A) :
  (forall a, In a l -> f a = g a) -> map f l = map g l.
Proof.
  induction l as [|a l IH]; simpl; intros H; [reflexivity|].
  rewrite (H a) by now left. f_equal. apply IH. auto.
Qed.

Lemma config_no_empty_first config flag args :
  config_no_empty_list config = true ->
  first_list config = Some (flag, args) ->
  args <> [] /\
  forall arg, In arg args ->
    config_no_empty_list (dict_set flag arg config) = true.
Proof.
  intros Hne Hf.
  destruct (first_list_split config flag args Hf) as (pre & post & -> & Hpre).
  unfold config_no_empty_list in *. rewrite forallb_app in Hne.
  apply andb_true_iff in Hne as [Hp Hrest]. simpl in Hrest.
  apply andb_true_iff in Hrest as [Hv Hpost].
  apply andb_true_iff in Hv as [Hlen Hall].
  split; [destruct args; [discriminate|congruence]|].
  intros arg Hin.
  assert (Hset : exists mid, dict_set flag arg (pre ++ (flag, VList args) :: post)
                             = mid ++ post /\
                             forallb (fun kv => no_empty_list (snd kv)) mid = true).
  { clear Hpre Hf. induction pre as [|[k w] pre IH]; simpl.
    - rewrite String.eqb_refl. exists [(flag, arg)]. split; [reflexivity|].
      simpl. rewrite forallb_forall in Hall. now rewrite (Hall arg Hin).
    - simpl in Hp. apply andb_true_iff in Hp as [Hw Hp].
      destruct (String.eqb k flag).
      + exists ((k, arg) :: pre ++ [(flag, VList args)]). split.
        * simpl. now rewrite <- app_assoc.
        * simpl. rewrite forallb_forall in Hall. rewrite (Hall arg Hin).
          rewrite forallb_app, Hp. simpl. now rewrite Hlen, (proj2 (forallb_forall _ _) Hall).
      + destruct (IH Hp) as (mid & -> & Hmid).
        exists ((k, w) :: mid). split; [reflexivity|]. simpl. now rewrite Hw. }
  destruct Hset as (mid & -> & Hmid).
  rewrite forallb_app, Hmid. exact Hpost.
Qed.

Lemma explode_scalar_when_no_empty (config d : dict) :
  dict_wf config -> In d (explode config) ->
  config_no_empty_list config = true -> first_list d = None.
Proof.
  intros Hwf Hd. revert config Hwf d Hd.
  apply (explode_results_ind
           (fun config d => config_no_empty_list config = true ->
                            first_list d = None)).
  - auto.
  - intros config flag Hf Hne.
    destruct (config_no_empty_first config flag [] Hne Hf) as [Habs _].
    congruence.
  - intros config flag args arg d Hwf Hf Harg _ IH Hne.
    apply IH. now apply (config_no_empty_first config flag args Hne Hf).
Qed.

Lemma explode_length_leaves n : forall config,
  (dict_weight config < n)%nat -> dict_wf config ->
  config_no_empty_list config = true ->
  List.length (explode config) = config_leaves config.
Proof.
  induction n as [|n IH]; intros config Hlt Hwf Hne; [lia|].
  rewrite explode_unfold by exact Hwf.
  destruct (first_list config) as [[flag args]|] eqn:Hf.
  - destruct (config_no_empty_first config flag args Hne Hf) as [Hargs Hne'].
    destruct (first_list_split config flag args Hf) as (pre & post & E & Hpre).
    assert (Hfresh : ~ In flag (map fst pre)).
    { subst config. unfold dict_wf in Hwf. rewrite map_app in Hwf.
      apply NoDup_app in Hwf as (_ & Hdisj & _).
      intros Hin. apply (Hdisj flag); [now apply list_elem_of_In|]. left. }
    assert (Hlen : forall arg, In arg args ->
              List.length (explode (dict_set flag arg config)) =
              (leaves arg * config_leaves post)%nat).
    { intros arg Hin.
      destruct (explode_set_smaller config flag args arg Hwf Hf Hin) as [Hwf' Hw].
      rewrite IH by (auto; lia). subst config.
      rewrite dict_set_app_fresh by exact Hfresh. rewrite dict_set_head.
      rewrite config_leaves_app, (first_list_none_leaves pre Hpre).
      unfold config_leaves at 1. simpl. fold (config_leaves post). lia. }
    assert (Htotal : List.length (flat_map (fun arg => explode (dict_set flag arg config)) args)
                     = config_leaves config).
    { rewrite length_flat_map_sum.
      rewrite (map_ext_In _ (fun arg => (leaves arg * config_leaves post)%nat))
        by exact Hlen.
      rewrite list_sum_scale. subst config.
      rewrite config_leaves_app, (first_list_none_leaves pre Hpre).
      unfold config_leaves at 2. simpl. fold (config_leaves post). lia. }
    destruct (flat_map _ args) as [|c cs] eqn:Hfm; [|exact Htotal].
    exfalso. destruct args as [|a args]; [congruence|].
    simpl in Hfm. apply app_eq_nil in Hfm as [Ha _].
    destruct (explode_set_smaller config flag (a :: args) a Hwf Hf (or_introl eq_refl))
      as [Hwf' _].
    destruct (explode_total _ Hwf') as (r & Hr & _ & Er). congruence.
  - simpl. symmetry. now apply first_list_none_leaves.
Qed.

(** X5.  When no list of the configuration is empty, at any depth,
    [explode] flattens nested lists as well: every configuration it
    produces is fully scalar, and there are as many as the product, over the
    fields, of the number of scalars each field stands for. *)
Theorem explode_nested_lists (config : dict) :
  dict_wf config -> config_no_empty_list config = true ->
  List.length (explode config) = config_leaves config /\
  forall d, In d (explode config) -> first_list d = None.
Proof.
  intros Hwf Hne. split.
  - apply (explode_length_leaves (S (dict_weight config))); auto.
  - intros d Hd. now apply (explode_scalar_when_no_empty config d).
Qed.

Lemma explode_nested_lists_witness :
  let config := [("a", VList [VList [VInt 1; VInt 2]; VInt 3]);
                 ("b", VList [VBool true; VBool false])] in
  List.length (explode config) = 6%nat.
Proof.
  intros config.
  assert (Hwf : dict_wf config) by (unfold dict_wf, config; simpl; distinct).
  exact (proj1 (explode_nested_lists config Hwf eq_refl)).
Defined.

(* ================================================================= *)
(** ** params_to_flags, on every mapping *)

Lemma flat_map_filter {A B} (f : A -> list B) (keep : A -> bool) (l : list A) :
  (forall a, keep a = false -> f a = []) ->
  flat_map f (List.filter keep l) = flat_map f l.
Proof.
  intros H. induction l as [|a l IH]; simpl; [reflexivity|].
  destruct (keep a) eqn:E; simpl; rewrite IH; [reflexivity|].
  now rewrite (H a E).
Qed.

(** X6.  A field that is [False] leaves no trace: the flags are those of the
    mapping without its [False] fields, a token for every [True] field and
    two for every field that is not a boolean. *)
Theorem params_to_flags_false_fields (params : dict) :
  params_to_flags params =
    params_to_flags (List.filter (fun kv => negb (is_false (snd kv))) params) /\
  List.length (params_to_flags params) =
    (List.length (List.filter (fun kv => isinstance_bool (snd kv)
                                          && negb (is_false (snd kv))) params)
     + 2 * List.length (List.filter (fun kv => negb (isinstance_bool (snd kv)))
                          params))%nat.
Proof.
  split.
  - rewrite (params_to_flags_flat_map (List.filter _ params)).
    rewrite flat_map_filter; [apply params_to_flags_flat_map|].
    intros [flag value] E. destruct value as [|[]|z|s|l]; try discriminate.
    reflexivity.
  - induction params as [|[flag value] params IH]; [reflexivity|].
    change ((flag, value) :: params) with ([(flag, value)] ++ params).
    rewrite params_to_flags_app, length_app, IH.
    destruct value as [|[]|z|s|l]; simpl; lia.
Qed.

(* ================================================================= *)
(** ** Construction of generated and synthetic inputs *)

Lemma dict_pop_filter key d :
  dict_wf d ->
  dict_pop key d = List.filter (fun kv => negb (String.eqb (fst kv) key)) d.
Proof.
  unfold dict_wf. induction d as [|[k w] d IH]; simpl; intros Hwf; [reflexivity|].
  apply NoDup_cons in Hwf as [Hk Hwf].
  destruct (String.eqb k key) eqn:E; simpl.
  - apply String.eqb_eq in E. subst k.
    symmetry. clear IH Hwf. induction d as [|[k' w'] d IH]; [reflexivity|].
    simpl. destruct (String.eqb k' key) eqn:E'.
    + apply String.eqb_eq in E'. subst k'. exfalso. apply Hk. simpl. left.
    + simpl. f_equal. apply IH. intros Hin. apply Hk. simpl. now right.
  - f_equal. now apply IH.
Qed.

Lemma filter_keys_wf (keep : string * value -> bool) d :
  dict_wf d -> dict_wf (List.filter keep d).
Proof.
  unfold dict_wf. induction d as [|[k w] d IH]; simpl; intros Hwf; [exact Hwf|].
  apply NoDup_cons in Hwf as [Hk Hwf].
  destruct (keep (k, w)); [|now apply IH]. simpl.
  apply NoDup_cons. split; [|now apply IH].
  intros Hin. apply Hk. apply list_elem_of_In in Hin. apply list_elem_of_In.
  apply in_map_iff in Hin as ([k' w'] & Hkk & Hin'). simpl in Hkk. subst k'.
  apply filter_In in Hin' as [Hin' _].
  change k with (fst (k, w')). now apply in_map.
Qed.

Lemma dict_get_filter key (keep : string * value -> bool) d :
  (forall v, keep (key, v) = true) ->
  dict_get key (List.filter keep d) = dict_get key d.
Proof.
  intros Hkeep. induction d as [|[k w] d IH]; simpl; [reflexivity|].
  destruct (String.eqb k key) eqn:E.
  - apply String.eqb_eq in E. subst k. rewrite Hkeep. simpl.
    now rewrite String.eqb_refl.
  - destruct (keep (k, w)); [|exact IH]. simpl. now rewrite E.
Qed.

(** X7.  Construction of a generated input fails when a key is missing:
    with a [ValueError] without ["type"], and with a [KeyError] without the
    exponent ["N"], or ["M"], even when the size is given directly. *)
Theorem kagen_init_missing_keys (kwargs : dict) :
  (dict_mem "type" kwargs = false ->
   KaGenGraph.__init__ kwargs =
   Raises ValueError (Some "KaGen graph requires a type")) /\
  (dict_mem "type" kwargs = true -> dict_get "N" kwargs = None ->
   KaGenGraph.__init__ kwargs = Raises KeyError (Some "N")) /\
  (dict_mem "type" kwargs = true ->
   (exists n, KaGenGraph.size_argument kwargs "n" "N" = Returns n) ->
   dict_get "M" kwargs = None ->
   KaGenGraph.__init__ kwargs = Raises KeyError (Some "M")).
Proof.
  unfold KaGenGraph.__init__. split; [|split].
  - intros ->. reflexivity.
  - intros -> HN. simpl. unfold KaGenGraph.size_argument at 1. now rewrite HN.
  - intros -> [n Hn] HM. simpl. rewrite Hn. simpl.
    unfold KaGenGraph.size_argument. now rewrite HM.
Qed.

Lemma kagen_init_missing_keys_witness :
  KaGenGraph.__init__ [("n", VInt 1024); ("N", VInt 10)] =
    Raises ValueError (Some "KaGen graph requires a type") /\
  KaGenGraph.__init__ [("type", VStr "rgg2d"); ("n", VInt 1024); ("m", VInt 4096)] =
    Raises KeyError (Some "N") /\
  KaGenGraph.__init__ [("type", VStr "rgg2d"); ("n", VInt 1024); ("N", VInt 10)] =
    Raises KeyError (Some "M").
Proof.
  split; [|split].
  - apply (proj1 (kagen_init_missing_keys _)). reflexivity.
  - apply (proj1 (proj2 (kagen_init_missing_keys _))); reflexivity.
  - apply (proj2 (proj2 (kagen_init_missing_keys _)));
      [reflexivity|eexists; reflexivity|reflexivity].
Defined.

(** X8.  An exponent that [int] rejects with a [TypeError], a null one for
    instance, makes the size [None], and a size given directly is lost with
    it. *)
Theorem kagen_init_null_exponent (kwargs : dict) (e m : value) :
  dict_mem "type" kwargs = true ->
  dict_get "N" kwargs = Some e -> py_int e = Raises TypeError None ->
  KaGenGraph.size_argument kwargs "m" "M" = Returns m ->
  exists self,
    KaGenGraph.__init__ kwargs = Returns self /\
    KaGenGraph.n self = VNone /\ KaGenGraph.m self = m.
Proof.
  intros Ht HN He Hm. unfold KaGenGraph.__init__. rewrite Ht. simpl.
  unfold KaGenGraph.size_argument at 1. rewrite HN, He. simpl.
  rewrite Hm. simpl. eexists. repeat split.
Qed.

Lemma kagen_init_null_exponent_witness :
  exists self,
    KaGenGraph.__init__
      [("type", VStr "rgg2d"); ("n", VInt 1024); ("N", VNone); ("M", VInt 12)]
    = Returns self /\
    KaGenGraph.n self = VNone /\ KaGenGraph.m self = VInt 4096.
Proof.
  apply (kagen_init_null_exponent _ VNone (VInt 4096)); reflexivity.
Defined.

(** X9.  The parameters of a generated input are the keyword arguments
    without the sizes, the exponents and the weak-scaling flag, in the order
    they were given; the flag is [False] when it is not given. *)
Theorem kagen_init_params (kwargs : dict) (self : KaGenGraph.t) :
  dict_wf kwargs -> KaGenGraph.__init__ kwargs = Returns self ->
  KaGenGraph.params self =
    without_keys ["n"; "N"; "m"; "M"; "scale_weak"] kwargs /\
  dict_mem "type" (KaGenGraph.params self) = true /\
  KaGenGraph.scale_weak self =
    match dict_get "scale_weak" kwargs with
    | Some v => v
    | None => VBool false
    end.
Proof.
  intros Hwf. unfold KaGenGraph.__init__.
  destruct (dict_mem "type" kwargs) eqn:Ht; simpl; [|discriminate].
  destruct (KaGenGraph.size_argument kwargs "n" "N") as [n| |]; simpl;
    try discriminate.
  destruct (KaGenGraph.size_argument kwargs "m" "M") as [m| |]; simpl;
    try discriminate.
  intros H. inversion H; subst; clear H. simpl.
  rewrite (dict_pop_filter "n" kwargs Hwf).
  set (k1 := List.filter _ kwargs).
  assert (W1 : dict_wf k1) by (now apply filter_keys_wf).
  rewrite (dict_pop_filter "N" k1 W1).
  set (k2 := List.filter _ k1).
  assert (W2 : dict_wf k2) by (now apply filter_keys_wf).
  rewrite (dict_pop_filter "m" k2 W2).
  set (k3 := List.filter _ k2).
  assert (W3 : dict_wf k3) by (now apply filter_keys_wf).
  rewrite (dict_pop_filter "M" k3 W3).
  set (k4 := List.filter _ k3).
  assert (W4 : dict_wf k4) by (now apply filter_keys_wf).
  rewrite (dict_pop_filter "scale_weak" k4 W4).
  assert (Hparams : List.filter (fun kv => negb (String.eqb (fst kv) "scale_weak")) k4
                    = without_keys ["n"; "N"; "m"; "M"; "scale_weak"] kwargs).
  { unfold k4, k3, k2, k1, without_keys. clear.
    induction kwargs as [|[k w] kwargs IH]; [reflexivity|]. simpl.
    destruct (String.eqb k "n"); simpl; [exact IH|].
    destruct (String.eqb k "N"); simpl; [exact IH|].
    destruct (String.eqb k "m"); simpl; [exact IH|].
    destruct (String.eqb k "M"); simpl; [exact IH|].
    destruct (String.eqb k "scale_weak"); simpl; [exact IH|].
    now rewrite IH. }
  split; [exact Hparams|]. split.
  - rewrite Hparams. unfold without_keys. clear - Ht.
    induction kwargs as [|[k w] kwargs IH]; [discriminate|]. simpl in *.
    destruct (String.eqb k "type") eqn:E.
    + apply String.eqb_eq in E. subst k. simpl. reflexivity.
    + simpl in Ht. destruct (negb _); simpl; [rewrite E; simpl|]; now apply IH.
  - unfold k4, k3, k2, k1. now rewrite !dict_get_filter by reflexivity.
Qed.

Lemma kagen_init_params_witness :
  exists self,
    KaGenGraph.__init__
      [("type", VStr "rgg2d"); ("N", VInt 10); ("k", VInt 16); ("M", VNone);
       ("scale_weak", VBool true); ("periodic", VBool true)] = Returns self /\
    KaGenGraph.params self =
      [("type", VStr "rgg2d"); ("k", VInt 16); ("periodic", VBool true)].
Proof.
  eexists. split; [reflexivity|].
  refine (proj1 (kagen_init_params
                   [("type", VStr "rgg2d"); ("N", VInt 10); ("k", VInt 16);
                    ("M", VNone); ("scale_weak", VBool true);
                    ("periodic", VBool true)] _ _ eq_refl)).
  unfold dict_wf. simpl. distinct.
Defined.

(** X10.  Escaping changes the quoting of a generated input's arguments and
    nothing else: the arguments are returned with escaping exactly when they
    are returned without it, and both times they are the option flag and one
    option string, the same string, which escaping puts between double
    quotes. *)
Theorem kagen_args_escape (self : KaGenGraph.t) (mpi_ranks threads_per_rank : Z) :
  (forall arguments,
     KaGenGraph.args self mpi_ranks threads_per_rank false = Returns arguments ->
     exists options,
       arguments = ["--kagen_option_string"; options] /\
       KaGenGraph.args self mpi_ranks threads_per_rank true =
         Returns ["--kagen_option_string";
                  String dquote (options +:+ String dquote "")]) /\
  (forall arguments,
     KaGenGraph.args self mpi_ranks threads_per_rank true = Returns arguments ->
     exists options,
       arguments = ["--kagen_option_string";
                    String dquote (options +:+ String dquote "")] /\
       KaGenGraph.args self mpi_ranks threads_per_rank false =
         Returns ["--kagen_option_string"; options]).
Proof.
  unfold KaGenGraph.args.
  set (p := mpi_ranks * threads_per_rank).
  destruct (truthy (KaGenGraph.n self));
    [destruct (KaGenGraph.get_n self p) as [rn|kn msgn|sn]|];
  (destruct (truthy (KaGenGraph.m self));
    [destruct (KaGenGraph.get_m self p) as [rm|km msgm|sm]|]);
  simpl; split; intros arguments E; try discriminate;
  injection E as <-; eexists; split; reflexivity.
Qed.

Lemma kagen_args_escape_witness :
  let self := KaGenGraph.Build (VInt 1024) VNone (VBool true)
                [("type", VStr "rgg2d"); ("periodic", VBool true)] in
  let plain := "type=rgg2d;periodic;n=8192" in
  let quoted := String dquote (plain +:+ String dquote "") in
  KaGenGraph.args self 4 2 false = Returns ["--kagen_option_string"; plain] /\
  KaGenGraph.args self 4 2 true = Returns ["--kagen_option_string"; quoted] /\
  (exists options,
     ["--kagen_option_string"; plain] = ["--kagen_option_string"; options] /\
     KaGenGraph.args self 4 2 true =
       Returns ["--kagen_option_string";
                String dquote (options +:+ String dquote "")]) /\
  (exists options,
     ["--kagen_option_string"; quoted] =
       ["--kagen_option_string"; String dquote (options +:+ String dquote "")] /\
     KaGenGraph.args self 4 2 false = Returns ["--kagen_option_string"; options]).
Proof.
  intros self plain quoted.
  assert (E : KaGenGraph.args self 4 2 false =
              Returns ["--kagen_option_string"; plain])
    by (vm_compute; reflexivity).
  assert (Eq : KaGenGraph.args self 4 2 true =
               Returns ["--kagen_option_string"; quoted])
    by (vm_compute; reflexivity).
  split; [exact E|]. split; [exact Eq|]. split.
  - exact (proj1 (kagen_args_escape self 4 2) _ E).
  - exact (proj2 (kagen_args_escape self 4 2) _ Eq).
Defined.

(** X11.  A synthetic input needs a name: without the key ["name"]
    construction fails with a [KeyError]; with it, the name is that value
    and the parameters are the other keyword arguments, in their order. *)
Theorem dummy_init_name (kwargs : dict) :
  (dict_get "name" kwargs = None ->
   DummyInstance.__init__ kwargs = Raises KeyError (Some "name")) /\
  (forall name, dict_wf kwargs -> dict_get "name" kwargs = Some name ->
     DummyInstance.__init__ kwargs =
     Returns (DummyInstance.Build name (without_keys ["name"] kwargs))).
Proof.
  unfold DummyInstance.__init__. split.
  - intros ->. reflexivity.
  - intros name Hwf ->. rewrite (dict_pop_filter "name" kwargs Hwf).
    do 2 f_equal. unfold without_keys. apply filter_ext.
    intros [k w]. simpl. now rewrite orb_false_r.
Qed.

Lemma dummy_init_name_witness :
  DummyInstance.__init__ [("size", VInt 3)] = Raises KeyError (Some "name") /\
  DummyInstance.__init__ [("size", VInt 3); ("name", VStr "d"); ("fast", VBool true)] =
    Returns (DummyInstance.Build (VStr "d") [("size", VInt 3); ("fast", VBool true)]).
Proof.
  split.
  - apply (proj1 (dummy_init_name _)). reflexivity.
  - refine (proj2 (dummy_init_name
                     [("size", VInt 3); ("name", VStr "d"); ("fast", VBool true)])
                   (VStr "d") _ eq_refl).
    unfold dict_wf. simpl. distinct.
Defined.

(* ================================================================= *)
(** ** Partitions of a file input *)

(** X12.  Partitions that are added are found: a partitioned input run on
    [r > 1] ranks passes the file that [add_partitions] gave for [r],
    whatever was there before, and for a rank count the added map does not
    mention nothing changes. *)
Theorem file_input_add_partitions
    (self : FileInputGraph.t) (new : gmap Z string) (r threads_per_rank : Z)
    (escape : bool) (w : world) :
  let self' := FileInputGraph.add_partitions self new in
  FileInputGraph.name self' = FileInputGraph.name self /\
  (forall file, FileInputGraph.partitioned self = true -> 1 < r ->
     new !! r = Some file -> file <> "" ->
     FileInputGraph.args self' r threads_per_rank escape w =
     (Returns ["--graphtype"; "BRAIN"; "--infile_dir"; FileInputGraph.path self;
               "--partitioning"; file], w)) /\
  (new !! r = None ->
     FileInputGraph.args self' r threads_per_rank escape w =
     FileInputGraph.args self r threads_per_rank escape w).
Proof.
  intros self'. unfold self', FileInputGraph.add_partitions, FileInputGraph.args,
    FileInputGraph.name. simpl.
  split; [reflexivity|]. split.
  - intros file Hp Hr Hnew Hne. apply Z.ltb_lt in Hr. rewrite Hp, Hr. simpl.
    rewrite (lookup_union_Some_l new _ r file Hnew).
    destruct file; [congruence|reflexivity].
  - intros Hnone. now rewrite (lookup_union_r new _ r Hnone).
Qed.

Lemma file_input_add_partitions_witness :
  let self := FileInputGraph.Build "web" "graphs/web" "metis"
                {[ 4 := "old.4.part" ]} true in
  FileInputGraph.args
    (FileInputGraph.add_partitions self {[ 4 := "new.4.part"; 8 := "new.8.part" ]})
    4 1 true (World ∅ []) =
  (Returns ["--graphtype"; "BRAIN"; "--infile_dir"; "graphs/web";
            "--partitioning"; "new.4.part"], World ∅ []).
Proof.
  intros self.
  assert (L : 1 < 4) by reflexivity.
  refine (proj1 (proj2 (file_input_add_partitions self
                          {[ 4 := "new.4.part"; 8 := "new.8.part" ]} 4 1 true
                          (World ∅ []))) "new.4.part" eq_refl L _ _).
  - reflexivity.
  - discriminate.
Defined.

(* ================================================================= *)
(** ** Nodes, queues and islands at the edges *)

(** X13.  No cores still take one node, and no tasks per node is a division
    by zero. *)
Theorem required_nodes_zero :
  (forall tasks_per_node, 0 < tasks_per_node < 2 ^ 53 ->
     SBatchRunner.required_nodes 0 tasks_per_node = Returns 1) /\
  (forall cores, 0 <= cores < 2 ^ 53 ->
     SBatchRunner.required_nodes cores 0 = Raises ZeroDivisionError None).
Proof.
  split.
  - intros t Ht.
    destruct (float_of_int_normal t Ht) as (m & e & Hy & _).
    unfold SBatchRunner.required_nodes.
    change (float_of_int 0) with (Returns (S754_zero false)).
    simpl result_bind. rewrite Hy. reflexivity.
  - intros c Hc. unfold SBatchRunner.required_nodes.
    change (float_of_int 0) with (Returns (S754_zero false)).
    destruct (Z.eq_dec c 0) as [->|Hne]; [reflexivity|].
    destruct (float_of_int_normal c ltac:(lia)) as (m & e & Hx & _).
    rewrite Hx. reflexivity.
Qed.

Lemma required_nodes_zero_witness :
  SBatchRunner.required_nodes 0 48 = Returns 1 /\
  SBatchRunner.required_nodes 96 0 = Raises ZeroDivisionError None.
Proof.
  assert (H48 : 0 < 48 < 2 ^ 53) by (split; reflexivity).
  assert (H96 : 0 <= 96 < 2 ^ 53) by (split; [discriminate|reflexivity]).
  split.
  - exact (proj1 required_nodes_zero 48 H48).
  - exact (proj2 required_nodes_zero 96 H96).
Defined.

(** X14.  On SuperMUC a job is spread over two islands exactly when it goes
    to the queue [large]. *)
Theorem supermuc_islands_large
    (cores tasks_per_node : Z) (use_test_partition : bool) (nodes : Z) :
  SBatchRunner.required_nodes cores tasks_per_node = Returns nodes ->
  (SuperMUCRunner.required_islands nodes = 2 <->
   SuperMUCRunner.get_queue cores tasks_per_node use_test_partition =
   Returns "large") /\
  (SuperMUCRunner.required_islands nodes = 1 \/
   SuperMUCRunner.required_islands nodes = 2).
Proof.
  intros Hn. rewrite (supermuc_queue_of_nodes _ _ _ _ Hn).
  unfold SuperMUCRunner.required_islands.
  destruct (Z.ltb_spec 768 nodes) as [Hgt|Hle].
  - destruct (Z.leb_spec nodes 16); [lia|].
    destruct (Z.leb_spec nodes 768); [lia|]. split; [tauto|now right].
  - split; [|now left]. split; [discriminate|].
    destruct (Z.leb_spec nodes 16);
      [destruct use_test_partition; discriminate|].
    destruct (Z.leb_spec nodes 768); [discriminate|lia].
Qed.

Lemma supermuc_islands_large_witness :
  SuperMUCRunner.required_islands 769 = 2 /\
  SuperMUCRunner.get_queue (769 * 48) 48 true = Returns "large".
Proof.
  assert (H : SBatchRunner.required_nodes (769 * 48) 48 = Returns 769)
    by (vm_compute; reflexivity).
  split; [reflexivity|].
  apply (proj1 (supermuc_islands_large _ _ true 769 H)). reflexivity.
Defined.

(* ================================================================= *)
(** ** format_duration *)

Lemma string_length_append (s1 s2 : string) :
  String.length (s1 +:+ s2) = (String.length s1 + String.length s2)%nat.
Proof. induction s1 as [|c s1 IH]; simpl; [reflexivity|]. now rewrite IH. Qed.

Lemma string_append_inj (s1 s2 t1 t2 : string) :
  String.length s1 = String.length s2 ->
  s1 +:+ t1 = s2 +:+ t2 -> s1 = s2 /\ t1 = t2.
Proof.
  revert s2. induction s1 as [|c s1 IH]; intros [|c' s2]; simpl;
    try discriminate; [auto|].
  intros Hlen H. inversion H; subst.
  destruct (IH s2 ltac:(lia) H2) as [-> ->]. auto.
Qed.

Lemma str_int_inj (a b : Z) : str_int a = str_int b -> a = b.
Proof.
  unfold str_int. intros H.
  assert (Hnil : forall p, Pos.to_uint p <> Decimal.Nil).
  { intros p Hp. pose proof (DecimalPos.Unsigned.of_to p) as E.
    rewrite Hp in E. discriminate. }
  assert (Hok : forall z, NilZero.int_of_string (NilZero.string_of_int (Z.to_int z))
                          = Some (Z.to_int z)).
  { intros z. apply NilZero.isi; destruct z; simpl; try discriminate;
      intros E; inversion E; now apply (Hnil p). }
  apply DecimalZ.to_int_inj.
  pose proof (Hok a) as Ha. rewrite H, Hok in Ha. now inversion Ha.
Qed.

(** The number a two-digit field stands for. *)
Lemma format_02_decode (x : Z) :
  0 <= x < 60 ->
  String.length (format_02 x) = 2%nat /\
  option_map Z.of_int (NilZero.int_of_string (format_02 x)) = Some x.
Proof.
  intros Hx. rewrite <- (Z2Nat.id x) by lia.
  assert (Hn : (Z.to_nat x < 60)%nat) by lia.
  generalize dependent (Z.to_nat x). clear. intros n Hn.
  do 60 (destruct n as [|n]; [split; vm_compute; reflexivity|]). lia.
Qed.

Lemma format_duration_fields (seconds : Z) :
  exists days hours minutes secs,
    seconds = days * 86400 + hours * 3600 + minutes * 60 + secs /\
    0 <= hours < 24 /\ 0 <= minutes < 60 /\ 0 <= secs < 60 /\
    format_duration seconds =
      str_int days +:+ "-" +:+ format_02 hours +:+ ":" +:+ format_02 minutes
      +:+ ":" +:+ format_02 secs.
Proof.
  unfold format_duration, divmod. change (3600 * 24) with 86400.
  exists (seconds / 86400), (seconds mod 86400 / 3600),
    (seconds mod 86400 mod 3600 / 60), (seconds mod 86400 mod 3600 mod 60).
  pose proof (Z.div_mod seconds 86400 ltac:(lia)).
  pose proof (Z.mod_pos_bound seconds 86400 ltac:(lia)).
  pose proof (Z.div_mod (seconds mod 86400) 3600 ltac:(lia)).
  pose proof (Z.mod_pos_bound (seconds mod 86400) 3600 ltac:(lia)).
  pose proof (Z.div_mod (seconds mod 86400 mod 3600) 60 ltac:(lia)).
  pose proof (Z.mod_pos_bound (seconds mod 86400 mod 3600) 60 ltac:(lia)).
  assert (0 <= seconds mod 86400 / 3600 < 24)
    by (split; [apply Z.div_pos; lia|apply Z.div_lt_upper_bound; lia]).
  assert (0 <= seconds mod 86400 mod 3600 / 60 < 60)
    by (split; [apply Z.div_pos; lia|apply Z.div_lt_upper_bound; lia]).
  repeat split; try lia.
Qed.


Lemma format_duration_inj (a b : Z) :
  format_duration a = format_duration b -> a = b.
Proof.
  destruct (format_duration_fields a) as (da & ha & ma & sa & Ea & Hha & Hma & Hsa & ->).
  destruct (format_duration_fields b) as (db & hb & mb & sb & Eb & Hhb & Hmb & Hsb & ->).
  intros H.
  destruct (format_02_decode ha ltac:(lia)) as [Lha Dha].
  destruct (format_02_decode hb ltac:(lia)) as [Lhb Dhb].
  destruct (format_02_decode ma ltac:(lia)) as [Lma Dma].
  destruct (format_02_decode mb ltac:(lia)) as [Lmb Dmb].
  destruct (format_02_decode sa ltac:(lia)) as [Lsa Dsa].
  destruct (format_02_decode sb ltac:(lia)) as [Lsb Dsb].
  assert (Hlen : String.length (str_int da) = String.length (str_int db)).
  { apply (f_equal String.length) in H.
    repeat (rewrite string_length_append in H; simpl String.length in H).
    lia. }
  destruct (string_append_inj _ _ _ _ Hlen H) as [Hd Hrest].
  apply str_int_inj in Hd.
  cbn [String.append] in Hrest. inversion Hrest as [Hrest1].
  assert (Lh : String.length (format_02 ha) = String.length (format_02 hb)) by lia.
  destruct (string_append_inj _ _ _ _ Lh Hrest1) as [Hh Hrest2].
  cbn [String.append] in Hrest2. inversion Hrest2 as [Hrest3].
  assert (Lm : String.length (format_02 ma) = String.length (format_02 mb)) by lia.
  destruct (string_append_inj _ _ _ _ Lm Hrest3) as [Hm Hrest4].
  cbn [String.append] in Hrest4. inversion Hrest4 as [Hs].
  change (format_02 sa = format_02 sb) in Hs.
  rewrite Hh in Dha. rewrite Hm in Dma. rewrite Hs in Dsa.
  assert (ha = hb) by congruence.
  assert (ma = mb) by congruence.
  assert (sa = sb) by congruence.
  lia.
Qed.

(** X16.  Different durations have different strings. *)
Theorem format_duration_injective (a b : Z) :
  a <> b -> format_duration a <> format_duration b.
Proof. intros Hne E. apply Hne. now apply format_duration_inj. Qed.

Lemma format_duration_injective_witness :
  format_duration 86399 <> format_duration 86400.
Proof. apply format_duration_injective. discriminate. Defined.

(* ================================================================= *)
(** ** The command of a job *)

Lemma dict_set_absent key v d :
  dict_mem key d = false -> dict_set key v d = d ++ [(key, v)].
Proof.
  unfold dict_mem. induction d as [|[k w] d IH]; simpl; [reflexivity|].
  intros H. apply orb_false_iff in H as [Hk Hd]. rewrite Hk.
  f_equal. now apply IH.
Qed.

Lemma dict_mem_app key d1 d2 :
  dict_mem key (d1 ++ d2) = dict_mem key d1 || dict_mem key d2.
Proof. unfold dict_mem. apply existsb_app. Qed.

Section JobCommand.
Context `{Platform}.

(** What [command] comes to: the input's arguments are asked for when the
    input is truthy, and the outcome of that is the outcome of [command],
    with the path of the program before the arguments and the flags after
    them. *)
Lemma command_run name binary_path i mpi_ranks threads_per_rank escape kwargs w :
  command (Some name) binary_path i mpi_ranks threads_per_rank escape kwargs w =
  match (if input_truthy i
         then input_args i mpi_ranks threads_per_rank escape w
         else (Returns [], w)) with
  | (Returns arguments, w') =>
      (Returns (path_join (path_join build_dir binary_path) name
                :: arguments ++ params_to_flags kwargs), w')
  | (Raises kind msg, w') => (Raises kind msg, w')
  | (Exits status, w') => (Exits status, w')
  end.
Proof.
  unfold command. unfold bind at 1.
  destruct (input_truthy i).
  - unfold bind at 1.
    destruct (input_args i mpi_ranks threads_per_rank escape w)
      as [[a|kind msg|status] w']; reflexivity.
  - reflexivity.
Qed.

(** What [make_cmd_for_config] comes to, step by step: the copy is made,
    the two fields are set in it, and [command] is called with it. *)
Lemma make_cmd_for_config_run self suite i config_job_name config_index
    mpi_ranks threads_per_rank seed config w d :
  heap w !! config = Some d ->
  let d1 := if BaseRunner.omit_json_output_path self then d
            else dict_set "json_output_path"
                   (VStr (path_join (BaseRunner.output_directory self)
                            (config_job_name +:+ "_timer.json"))) d in
  let d2 := if BaseRunner.omit_seed self then d1 else dict_set "seed" seed d1 in
  let w' := World (<[fresh (dom (heap w)) := d2]> (heap w)) (log w) in
  BaseRunner.make_cmd_for_config self suite i config_job_name config_index
    mpi_ranks threads_per_rank seed config w =
  if existsb (fun key => dict_mem key d2) BaseRunner.command_parameters
  then (Raises TypeError None, w')
  else command (ExperimentSuite.executable suite) "." i mpi_ranks
         threads_per_rank true d2 w'.
Proof.
  intros Hd d1 d2 w'. unfold BaseRunner.make_cmd_for_config.
  unfold dict_copy, bind at 1 2. unfold deref at 1. rewrite Hd.
  unfold alloc. cbn [fst snd heap log].
  set (l := fresh (dom (heap w))) in *.
  set (w1 := World (<[l := d]> (heap w)) (log w)).
  assert (Hw1 : heap w1 !! l = Some d) by (apply lookup_insert_eq).
  set (w2 := World (<[l := d1]> (heap w)) (log w)).
  assert (Hstep1 :
    (if negb (BaseRunner.omit_json_output_path self)
     then dict_setitem l "json_output_path"
            (VStr (path_join (BaseRunner.output_directory self)
                     (config_job_name +:+ "_timer.json")))
     else ret tt) w1 = (Returns tt, w2)).
  { unfold d1 in w2. unfold w2. destruct (BaseRunner.omit_json_output_path self); simpl.
    - reflexivity.
    - unfold dict_setitem, bind, deref. rewrite Hw1. unfold store, w1. simpl.
      now rewrite insert_insert_eq. }
  unfold bind at 1. rewrite Hstep1.
  assert (Hstep2 :
    (if negb (BaseRunner.omit_seed self)
     then dict_setitem l "seed" seed else ret tt) w2 = (Returns tt, w')).
  { unfold w', d2. fold l. destruct (BaseRunner.omit_seed self); simpl.
    - reflexivity.
    - unfold dict_setitem, bind, deref.
      assert (Hw2 : heap w2 !! l = Some d1) by (apply lookup_insert_eq).
      rewrite Hw2. unfold store, w2. simpl. now rewrite insert_insert_eq. }
  unfold bind at 1. rewrite Hstep2.
  unfold bind, deref.
  assert (Hw3 : heap w' !! l = Some d2) by (apply lookup_insert_eq).
  rewrite Hw3.
  destruct (existsb _ _); reflexivity.
Qed.

(** X17.  The command of a job is the path of the executable, then the
    arguments the input gives for the job's ranks and threads with escaping
    on (nothing at all for an input that is falsy), then the flags of the
    job's configuration, which is the caller's with the output path and the
    seed set; a seed or a path that the caller's configuration has is
    replaced where it stands.  The input is asked after the copy is made;
    when its arguments exit or raise, so does the call.  The call returns
    only with an executable and a configuration that has none of the
    parameter names of [command].  When the configuration has neither the
    path nor the seed, and the seed is not a boolean, the command ends with
    the caller's flags and then [--json_output_path <path> --seed <seed>]. *)
Theorem make_cmd_for_config_flags
    (self : BaseRunner.t) (suite : ExperimentSuite.t) (i : input)
    (config_job_name : string) (config_index mpi_ranks threads_per_rank : Z)
    (seed : value) (config : loc) (w : world) (d : dict) :
  heap w !! config = Some d ->
  let path := path_join (BaseRunner.output_directory self)
                (config_job_name +:+ "_timer.json") in
  let d1 := if BaseRunner.omit_json_output_path self then d
            else dict_set "json_output_path" (VStr path) d in
  let d2 := if BaseRunner.omit_seed self then d1 else dict_set "seed" seed d1 in
  let w' := World (<[fresh (dom (heap w)) := d2]> (heap w)) (log w) in
  let asked := if input_truthy i
               then input_args i mpi_ranks threads_per_rank true w'
               else (Returns [], w') in
  let call := BaseRunner.make_cmd_for_config self suite i config_job_name
                config_index mpi_ranks threads_per_rank seed config w in
  (forall cmd,
     fst call = Returns cmd ->
     exists name arguments,
       ExperimentSuite.executable suite = Some name /\
       existsb (fun key => dict_mem key d2) BaseRunner.command_parameters = false /\
       fst asked = Returns arguments /\
       cmd = path_join (path_join build_dir ".") name
             :: arguments ++ params_to_flags d2) /\
  (forall name,
     ExperimentSuite.executable suite = Some name ->
     existsb (fun key => dict_mem key d2) BaseRunner.command_parameters = false ->
     call = match asked with
            | (Returns arguments, w'') =>
                (Returns (path_join (path_join build_dir ".") name
                          :: arguments ++ params_to_flags d2), w'')
            | (Raises kind msg, w'') => (Raises kind msg, w'')
            | (Exits status, w'') => (Exits status, w'')
            end) /\
  (BaseRunner.omit_json_output_path self = false ->
   BaseRunner.omit_seed self = false ->
   dict_mem "json_output_path" d = false -> dict_mem "seed" d = false ->
   isinstance_bool seed = false ->
   params_to_flags d2 =
   params_to_flags d ++ ["--json_output_path"; path; "--seed"; py_str seed]).
Proof.
  intros Hd path d1 d2 w' asked call.
  assert (Hrun := make_cmd_for_config_run self suite i config_job_name
                    config_index mpi_ranks threads_per_rank seed config w d Hd).
  cbv zeta in Hrun. fold path in Hrun. fold d1 in Hrun. fold d2 in Hrun.
  fold w' in Hrun. fold call in Hrun.
  split; [|split].
  - intros cmd Hcmd. rewrite Hrun in Hcmd.
    destruct (existsb _ BaseRunner.command_parameters); [discriminate|].
    destruct (ExperimentSuite.executable suite) as [name|]; [|discriminate].
    rewrite command_run in Hcmd. fold asked in Hcmd.
    destruct asked as [[a|kind msg|status] w'']; try discriminate.
    simpl in Hcmd. injection Hcmd as <-.
    exists name, a. auto.
  - intros name Hname Hfree. rewrite Hrun, Hfree, Hname.
    apply command_run.
  - intros Hoj Hos Hj Hs Hb. unfold d2, d1. rewrite Hoj, Hos.
    rewrite (dict_set_absent "json_output_path" _ d Hj).
    rewrite dict_set_absent
      by (rewrite dict_mem_app, Hs; reflexivity).
    rewrite !params_to_flags_app. rewrite <- app_assoc. f_equal.
    destruct seed; try discriminate; reflexivity.
Qed.
End JobCommand.

(** A partitioned file input on four ranks with a configuration that has a
    seed already, and the same input with a configuration that has none. *)
Lemma make_cmd_for_config_flags_witness :
  let self := BaseRunner.Build "out" false false in
  let g := FileInputGraph.Build "web" "graphs/web" "metis"
             {[ 4 := "web.4.part" ]} true in
  let suite := ExperimentSuite.Build "suite" (Some "bench") [4] [1]
                 [InputFile g] [1%positive] None [VInt 7] in
  let d := [("verbose", VBool true); ("seed", VInt 1)] in
  let w := World {[ 1%positive := d ]} [] in
  let d2 := [("verbose", VBool true); ("seed", VInt 7);
             ("json_output_path", VStr "out/job_timer.json")] in
  let w' := World (<[fresh (dom (heap w)) := d2]> (heap w)) (log w) in
  let cmd := ["../build/bench"; "--graphtype"; "BRAIN"; "--infile_dir";
              "graphs/web"; "--partitioning"; "web.4.part"; "--verbose";
              "--seed"; "7"; "--json_output_path"; "out/job_timer.json"] in
  let call := BaseRunner.make_cmd_for_config (H := example_platform) self suite
                (InputFile g) "job" 0 4 1 (VInt 7) 1%positive w in
  call = (Returns cmd, w') /\
  (exists name arguments,
     Some "bench" = Some name /\
     existsb (fun key => dict_mem key d2) BaseRunner.command_parameters = false /\
     fst (FileInputGraph.args g 4 1 true w') = Returns arguments /\
     cmd = path_join (Platform := example_platform)
             (path_join (Platform := example_platform)
                (build_dir (Platform := example_platform)) ".") name
           :: arguments ++ params_to_flags d2) /\
  params_to_flags
    (dict_set "seed" (VInt 7)
       (dict_set "json_output_path" (VStr "out/job_timer.json")
          [("verbose", VBool true); ("k", VInt 3)])) =
  params_to_flags [("verbose", VBool true); ("k", VInt 3)]
  ++ ["--json_output_path"; "out/job_timer.json"; "--seed"; "7"].
Proof.
  intros self g suite d w d2 w' cmd call.
  assert (Hd : heap w !! 1%positive = Some d) by reflexivity.
  assert (Hname : ExperimentSuite.executable suite = Some "bench") by reflexivity.
  destruct (make_cmd_for_config_flags (H := example_platform) self suite
              (InputFile g) "job" 0 4 1 (VInt 7) 1%positive w d Hd)
    as (Hshape & Hcall & _).
  assert (Hrun : call = (Returns cmd, w')) by exact (Hcall "bench" Hname eq_refl).
  split; [exact Hrun|]. split.
  - apply Hshape. fold call. rewrite Hrun. reflexivity.
  - set (c := [("verbose", VBool true); ("k", VInt 3)]).
    assert (Hc : heap (World {[ 2%positive := c ]} []) !! 2%positive = Some c)
      by reflexivity.
    destruct (make_cmd_for_config_flags (H := example_platform) self suite
                (InputFile g) "job" 0 4 1 (VInt 7) 2%positive
                (World {[ 2%positive := c ]} []) c Hc)
      as (_ & _ & Hflags).
    exact (Hflags eq_refl eq_refl eq_refl eq_refl eq_refl).
Defined.

(* ================================================================= *)
(** ** get_runner *)

Lemma prefix_spec (s1 s2 : string) :
  String.prefix s1 s2 = true <-> exists post, s2 = s1 +:+ post.
Proof.
  revert s2. induction s1 as [|a s1 IH]; intros s2.
  - destruct s2; simpl; split; eauto.
  - destruct s2 as [|b s2]; simpl.
    + split; [discriminate|]. intros [post E]. discriminate.
    + destruct (ascii_dec a b) as [->|Hne].
      * rewrite IH. split; intros [post E]; exists post.
        -- now rewrite E.
        -- now inversion E.
      * split; [discriminate|]. intros [post E].
        change (String b s2 = String a (s1 +:+ post)) in E. congruence.
Qed.

Lemma contains_spec (needle haystack : string) :
  contains needle haystack = true <->
  exists pre post, haystack = pre +:+ needle +:+ post.
Proof.
  induction haystack as [|c haystack IH].
  - change (contains needle "") with (String.prefix needle "" || false).
    rewrite orb_false_r, prefix_spec. split.
    + intros [post E]. exists "", post. exact E.
    + intros (pre & post & E). destruct pre; [|discriminate].
      exists post. exact E.
  - change (contains needle (String c haystack))
      with (String.prefix needle (String c haystack) || contains needle haystack).
    rewrite orb_true_iff, prefix_spec, IH. split.
    + intros [[post E]|(pre & post & E)].
      * exists "", post. exact E.
      * exists (String c pre), post.
        change (String c haystack = String c (pre +:+ needle +:+ post)).
        now rewrite E.
    + intros (pre & post & E). destruct pre as [|c' pre].
      * left. exists post. exact E.
      * right. change (String c haystack = String c' (pre +:+ needle +:+ post)) in E.
        inversion E. eauto.
Qed.

(** X18.  [get_runner] matches the machine name by containment: any piece of
    the word [supermuc], the empty name included, selects the SuperMUC
    runner, and any piece of [horeka] that is not also a piece of
    [supermuc] selects the HoreKa runner.  A name that is none of these,
    nor [shared] or [generic-job-file], ends the run with a message. *)
Theorem get_runner_by_containment (machine : string) :
  (get_runner machine = Selected SuperMUCRunner <->
   exists pre post, "supermuc" = pre +:+ machine +:+ post) /\
  (get_runner machine = Selected HorekaRunner <->
   (exists pre post, "horeka" = pre +:+ machine +:+ post) /\
   ~ (exists pre post, "supermuc" = pre +:+ machine +:+ post)) /\
  (get_runner machine = Selected SharedMemoryRunner <-> machine = "shared") /\
  (forall message, get_runner machine = SystemExit message ->
     message = "Unknown machine type: " +:+ machine /\
     machine <> "" /\ machine <> "supermuc" /\ machine <> "horeka") /\
  get_runner "" = Selected SuperMUCRunner.
Proof.
  rewrite <- !contains_spec.
  split; [|split; [|split; [|split; [|reflexivity]]]]; unfold get_runner;
    destruct (String.eqb_spec machine "shared") as [->|Hshared];
    try (destruct (contains machine "supermuc") eqn:Es);
    try (destruct (contains machine "horeka") eqn:Eh);
    try (destruct (String.eqb_spec machine "generic-job-file") as [->|Hg]);
    try (split; intros; try discriminate; try reflexivity; try congruence;
         try tauto; fail).
  - split; [intros _; split; [reflexivity|discriminate]|reflexivity].
  - intros message Hm. inversion Hm. split; [reflexivity|].
    repeat split; intros ->; discriminate.
Qed.

(* ================================================================= *)
(** ** Nodes and queues in terms of cores *)

(** The node count for sizes that binary64 holds exactly. *)
Lemma required_nodes_value (cores tasks_per_node : Z) :
  0 < cores < 2 ^ 53 -> 0 < tasks_per_node < 2 ^ 53 ->
  exists nodes,
    SBatchRunner.required_nodes cores tasks_per_node = Returns nodes /\
    (nodes - 1) * tasks_per_node < cores <= nodes * tasks_per_node.
Proof.
  intros Hc Ht.
  destruct (float_quotient cores tasks_per_node Hc Ht)
    as (x & y & g & Hx & Hy & Hdiv & Hg & HT).
  assert (Hpow : 0 < 2 ^ g) by (apply Z.pow_pos_nonneg; lia).
  destruct (round_half_even_ceil cores tasks_per_node (2 ^ g) Hc ltac:(lia) Hpow
              ltac:(lia)) as [Hround Hnodes].
  cbv zeta in Hround, Hnodes.
  set (nodes := (cores + tasks_per_node - 1) / tasks_per_node) in *.
  pose proof (round_half_even_bounds (cores * 2 ^ g) tasks_per_node ltac:(lia)) as HM.
  assert (Hn1 : 1 <= nodes) by nia.
  assert (Hn53 : nodes < 2 ^ 53) by nia.
  exists nodes. split; [|exact Hnodes].
  unfold SBatchRunner.required_nodes. rewrite Hx, Hy. simpl result_bind.
  rewrite Hdiv. simpl result_bind.
  rewrite (math_ceil_normal _ g nodes) by lia.
  simpl. f_equal. lia.
Qed.

Lemma required_nodes_le (cores tasks_per_node nodes bound : Z) :
  0 < tasks_per_node ->
  (nodes - 1) * tasks_per_node < cores <= nodes * tasks_per_node ->
  (nodes <= bound <-> cores <= bound * tasks_per_node).
Proof. intros Ht H. split; intros Hb; nia. Qed.

(** X19.  More cores never take fewer nodes, more tasks per node never take
    more; the nodes are never more than the cores, and with one task per
    node they are as many. *)
Theorem required_nodes_monotone (c1 c2 t1 t2 n11 n21 n12 : Z) :
  0 < c1 <= c2 -> c2 < 2 ^ 53 -> 0 < t1 <= t2 -> t2 < 2 ^ 53 ->
  SBatchRunner.required_nodes c1 t1 = Returns n11 ->
  SBatchRunner.required_nodes c2 t1 = Returns n21 ->
  SBatchRunner.required_nodes c1 t2 = Returns n12 ->
  n11 <= n21 /\ n12 <= n11 /\ 1 <= n11 <= c1 /\
  SBatchRunner.required_nodes c1 1 = Returns c1.
Proof.
  intros Hc Hc2 Ht Ht2 H11 H21 H12.
  destruct (required_nodes_value c1 t1) as (a & Ea & Ha); try lia.
  destruct (required_nodes_value c2 t1) as (b & Eb & Hb); try lia.
  destruct (required_nodes_value c1 t2) as (c & Ec & Hc').
  1-2: lia.
  destruct (required_nodes_value c1 1) as (d & Ed & Hd); try lia.
  rewrite Ea in H11. rewrite Eb in H21. rewrite Ec in H12.
  inversion H11; inversion H21; inversion H12; subst.
  assert (Hpos : 1 <= n11) by nia.
  split; [nia|]. split; [|split; [nia|]].
  - destruct (Z.le_gt_cases n12 n11) as [|Hgt]; [assumption|]. exfalso.
    assert (n11 * t2 <= (n12 - 1) * t2) by nia.
    assert (n11 * t1 <= n11 * t2) by nia. lia.
  - rewrite Ed. f_equal. lia.
Qed.

Lemma required_nodes_monotone_witness :
  3 <= 5 /\ 2 <= 3 /\ 1 <= 3 <= 100 /\
  SBatchRunner.required_nodes 100 1 = Returns 100.
Proof.
  assert (H1 : 0 < 100 <= 200) by (split; [reflexivity|discriminate]).
  assert (H2 : 200 < 2 ^ 53) by reflexivity.
  assert (H3 : 0 < 48 <= 64) by (split; [reflexivity|discriminate]).
  assert (H4 : 64 < 2 ^ 53) by reflexivity.
  apply (required_nodes_monotone 100 200 48 64 3 5 2 H1 H2 H3 H4);
    vm_compute; reflexivity.
Defined.

(** X20.  In terms of cores: on SuperMUC a job goes to [micro], or [test],
    up to 16 nodes' worth of cores, to [general] up to 768 nodes' worth, and
    to [large] beyond. *)
Theorem supermuc_queue_by_cores
    (cores tasks_per_node : Z) (use_test_partition : bool) :
  0 < cores < 2 ^ 53 -> 0 < tasks_per_node < 2 ^ 53 ->
  SuperMUCRunner.get_queue cores tasks_per_node use_test_partition =
  Returns (if cores <=? 16 * tasks_per_node
           then (if use_test_partition then "test" else "micro")
           else if cores <=? 768 * tasks_per_node then "general"
           else "large").
Proof.
  intros Hc Ht.
  destruct (required_nodes_value cores tasks_per_node Hc Ht) as (nodes & E & Hn).
  rewrite (supermuc_queue_of_nodes _ _ _ _ E).
  pose proof (required_nodes_le cores tasks_per_node nodes 16 ltac:(lia) Hn).
  pose proof (required_nodes_le cores tasks_per_node nodes 768 ltac:(lia) Hn).
  destruct (Z.leb_spec nodes 16), (Z.leb_spec cores (16 * tasks_per_node));
    try lia; [reflexivity|].
  destruct (Z.leb_spec nodes 768), (Z.leb_spec cores (768 * tasks_per_node));
    try lia; reflexivity.
Qed.

Lemma supermuc_queue_by_cores_witness :
  SuperMUCRunner.get_queue 769 48 false = Returns "general".
Proof.
  assert (Hc : 0 < 769 < 2 ^ 53) by (split; reflexivity).
  assert (Ht : 0 < 48 < 2 ^ 53) by (split; reflexivity).
  exact (supermuc_queue_by_cores 769 48 false Hc Ht).
Defined.

(** X21.  In terms of cores: on HoreKa [get_queue] always returns, with the
    queue [cpuonly], or [dev_cpuonly], up to 192 nodes' worth of cores, and
    with the exception object, not raised, beyond. *)
Theorem horeka_queue_by_cores
    (cores tasks_per_node : Z) (use_test_partition : bool) :
  0 < cores < 2 ^ 53 -> 0 < tasks_per_node < 2 ^ 53 ->
  HorekaRunner.get_queue cores tasks_per_node use_test_partition =
  Returns (if cores <=? 12 * tasks_per_node
           then QName (if use_test_partition then "dev_cpuonly" else "cpuonly")
           else if cores <=? 192 * tasks_per_node then QName "cpuonly"
           else QException ValueError
                  "Cannot use more than 192 compute nodes on HoreKa!").
Proof.
  intros Hc Ht.
  destruct (required_nodes_value cores tasks_per_node Hc Ht) as (nodes & E & Hn).
  rewrite (horeka_queue_of_nodes _ _ _ _ E).
  pose proof (required_nodes_le cores tasks_per_node nodes 12 ltac:(lia) Hn).
  pose proof (required_nodes_le cores tasks_per_node nodes 192 ltac:(lia) Hn).
  destruct (Z.leb_spec nodes 12), (Z.leb_spec cores (12 * tasks_per_node));
    try lia; [reflexivity|].
  destruct (Z.leb_spec nodes 192), (Z.leb_spec cores (192 * tasks_per_node));
    try lia; reflexivity.
Qed.

Lemma horeka_queue_by_cores_witness :
  HorekaRunner.get_queue (192 * 76 + 1) 76 true =
  Returns (QException ValueError
             "Cannot use more than 192 compute nodes on HoreKa!").
Proof.
  assert (Hc : 0 < 192 * 76 + 1 < 2 ^ 53) by (split; reflexivity).
  assert (Ht : 0 < 76 < 2 ^ 53) by (split; reflexivity).
  exact (horeka_queue_by_cores (192 * 76 + 1) 76 true Hc Ht).
Defined.
